(** * CyberStalk: the Windows capture client and the Flask collector

    A shallow embedding of [client_windows/monitor_apps.py] and
    [server/server.py], followed by the properties of the capture
    pipeline, the credential check and the append-only stores.

    Conventions of the embedding.
    - A Python [str] is the list of its code points, so [len] is [length]
      and [==] is equality of lists.
    - A Python exception is a value of [pyexc]; code that may raise returns
      a [result], and [try ... except C] is [try_except].
    - Values that come out of [json.loads] or go into [jsonify] are
      values of [json].
    - The windowing subsystem, [psutil], the HTTP transport and MySQL are
      collaborators outside the repository: what they answer is part of
      the input ([Window], [Request], [Env], [DB]); the Python runtime's
      text functions are collected in the class [Builtins]. *)

From Stdlib Require Import Ascii String List ZArith NArith Bool Lia.
From Stdlib Require Import Permutation Sorted.
Import ListNotations.
Open Scope Z_scope.

(* ================================================================== *)
(** * Python values *)
(* ================================================================== *)

(** ** Strings *)

Definition pystr := list N.

(** An ASCII literal of the source as a [pystr]. *)
Definition lit (s : string) : pystr :=
  map N_of_ascii (list_ascii_of_string s).

Fixpoint pystr_eqb (a b : pystr) : bool :=
  match a, b with
  | [], [] => true
  | x :: a', y :: b' => N.eqb x y && pystr_eqb a' b'
  | _, _ => false
  end.

(** [len(s)] *)
Definition len (s : pystr) : Z := Z.of_nat (length s).

(** [a < b] on [str]: lexicographic on code points. *)
Fixpoint pystr_ltb (a b : pystr) : bool :=
  match a, b with
  | [], [] => false
  | [], _ :: _ => true
  | _ :: _, [] => false
  | x :: a', y :: b' =>
      if N.ltb x y then true
      else if N.ltb y x then false
      else pystr_ltb a' b'
  end.

(** [str.isspace] on one code point (the table of CPython's
    [_PyUnicode_IsWhitespace]). *)
Definition is_space (c : N) : bool :=
  ((9 <=? c) && (c <=? 13) || (28 <=? c) && (c <=? 32)
   || (c =? 133) || (c =? 160) || (c =? 5760)
   || (8192 <=? c) && (c <=? 8202)
   || (c =? 8232) || (c =? 8233) || (c =? 8239) || (c =? 8287)
   || (c =? 12288))%N.

Fixpoint lstrip (s : pystr) : pystr :=
  match s with
  | c :: s' => if is_space c then lstrip s' else s
  | [] => []
  end.

Definition rstrip (s : pystr) : pystr := rev (lstrip (rev s)).

(** [s.strip()] *)
Definition strip (s : pystr) : pystr := rstrip (lstrip s).

(** ** Exceptions *)

Inductive pyexc : Type :=
| Exception          (* the base class, as named in [except Exception] *)
| AttributeError
| TypeError
| ValueError
| OverflowError
| JSONDecodeError    (* json: a subclass of ValueError *)
| BadRequest         (* werkzeug: raised by [get_json] *)
| MySQLError         (* mysql.connector.Error *)
| PsutilError        (* psutil.Error *)
| NoSuchProcess
| ZombieProcess      (* psutil: a subclass of NoSuchProcess *)
| AccessDenied.

Definition pyexc_eqb (a b : pyexc) : bool :=
  match a, b with
  | Exception, Exception | AttributeError, AttributeError
  | TypeError, TypeError | ValueError, ValueError
  | OverflowError, OverflowError | JSONDecodeError, JSONDecodeError
  | BadRequest, BadRequest | MySQLError, MySQLError
  | PsutilError, PsutilError | NoSuchProcess, NoSuchProcess
  | ZombieProcess, ZombieProcess | AccessDenied, AccessDenied => true
  | _, _ => false
  end.

(** [issubclass e c]: an exception of class [e] is caught by [except c]. *)
Definition issubclass (e c : pyexc) : bool :=
  match c with
  | Exception => true
  | ValueError =>
      match e with ValueError | JSONDecodeError => true | _ => false end
  | PsutilError =>
      match e with
      | PsutilError | NoSuchProcess | ZombieProcess | AccessDenied => true
      | _ => false
      end
  | NoSuchProcess =>
      match e with NoSuchProcess | ZombieProcess => true | _ => false end
  | _ => pyexc_eqb e c
  end.

Inductive result (A : Type) : Type :=
| Return (a : A)
| Raise (e : pyexc).

Arguments Return {A} a.
Arguments Raise {A} e.

Definition bind {A B : Type} (m : result A) (k : A -> result B) : result B :=
  match m with
  | Return a => k a
  | Raise e => Raise e
  end.

Declare Scope py_scope.
Delimit Scope py_scope with py.
Notation "x <- m ;; k" := (bind m (fun x => k))
  (at level 61, m at next level, right associativity) : py_scope.
Open Scope py_scope.

(** [try: body  except (c1, ..., cn): handler]: the handler runs when the
    class of the exception is a subclass of one of the listed classes. *)
Definition try_except {A : Type} (body : result A) (classes : list pyexc)
    (handler : result A) : result A :=
  match body with
  | Return a => Return a
  | Raise e => if existsb (issubclass e) classes then handler else Raise e
  end.

(** [try: body  except C1: h1  except C2: h2 ...]: the first clause whose
    classes match handles the exception. *)
Fixpoint first_handler {A : Type} (e : pyexc)
    (clauses : list (list pyexc * result A)) : result A :=
  match clauses with
  | [] => Raise e
  | (classes, handler) :: rest =>
      if existsb (issubclass e) classes then handler
      else first_handler e rest
  end.

Definition try_except_clauses {A : Type} (body : result A)
    (clauses : list (list pyexc * result A)) : result A :=
  match body with
  | Return a => Return a
  | Raise e => first_handler e clauses
  end.

(** [try: x = body  except (c1, ..., cn): handler  else: k x], where the
    handler leaves the enclosing function. *)
Definition try_except_else {A B : Type} (body : result A)
    (classes : list pyexc) (handler : result B) (k : A -> result B)
    : result B :=
  match body with
  | Return a => k a
  | Raise e => if existsb (issubclass e) classes then handler else Raise e
  end.

(** ** JSON values *)

(** A Python [float]: a finite double is [m * 2^e]. *)
Inductive pyfloat : Type :=
| Finite (m e : Z)
| Infinity (negative : bool)
| NaN.

#[warnings="-register-all"]
Inductive json : Type :=
| JNull                                   (* None *)
| JBool (b : bool)
| JInt (z : Z)
| JFloat (f : pyfloat)
| JStr (s : pystr)
| JList (l : list json)
| JDict (items : list (pystr * json)).    (* in insertion order *)

(** Truth value of an object ([if not x], [x or y]). *)
Definition truthy (v : json) : bool :=
  match v with
  | JNull => false
  | JBool b => b
  | JInt z => negb (z =? 0)
  | JFloat (Finite m _) => negb (m =? 0)
  | JFloat _ => true
  | JStr s => match s with [] => false | _ => true end
  | JList l => match l with [] => false | _ => true end
  | JDict d => match d with [] => false | _ => true end
  end.

(** [x or y] *)
Definition py_or (x y : json) : json := if truthy x then x else y.

Fixpoint dict_get (items : list (pystr * json)) (key : pystr) (default : json)
    : json :=
  match items with
  | [] => default
  | (k, v) :: rest => if pystr_eqb k key then v else dict_get rest key default
  end.

(** [obj.get(key, default)]: only a dict has the method. *)
Definition py_get (obj : json) (key : pystr) (default : json) : result json :=
  match obj with
  | JDict items => Return (dict_get items key default)
  | _ => Raise AttributeError
  end.

(** [a == b] where [b] is a [str]: only an equal [str] compares equal. *)
Definition py_eq_str (a : json) (b : pystr) : bool :=
  match a with
  | JStr s => pystr_eqb s b
  | _ => false
  end.

(** The runtime's text functions that the code calls. *)
Class Builtins : Type := {
  (** [str.lower] *)
  str_lower : pystr -> pystr;
  (** [int(s)] for a [str]; [None] is ValueError *)
  int_of_str : pystr -> option Z;
  (** [json.loads] *)
  json_loads : pystr -> result json;
  (** [json.dumps(_, ensure_ascii=False)] on values that came from JSON *)
  json_dumps : json -> pystr
}.

(** [int(x)] *)
Definition py_int `{Builtins} (x : json) : result Z :=
  match x with
  | JBool b => Return (if b then 1 else 0)
  | JInt z => Return z
  | JFloat (Finite m e) =>
      Return (if 0 <=? e then m * 2 ^ e else Z.quot m (2 ^ (- e)))
  | JFloat (Infinity _) => Raise OverflowError
  | JFloat NaN => Raise ValueError
  | JStr s => match int_of_str s with
              | Some z => Return z
              | None => Raise ValueError
              end
  | JNull | JList _ | JDict _ => Raise TypeError
  end.

(* ================================================================== *)
(** * The capture client: [monitor_apps.py] *)
(* ================================================================== *)

(** One top-level window as the windowing subsystem and [psutil] answer
    for it at the moment it is visited. *)
Record Window : Type := {
  hwnd : Z;
  IsWindowVisible : bool;
  GetWindowText : pystr;
  GetWindowRect : Z * Z * Z * Z;        (* left, top, right, bottom *)
  GetWindowThreadProcessId : Z * Z;     (* tid, pid *)
  (** [psutil.Process(pid).name()] *)
  process_lookup : result pystr
}.

Record ActiveAppInfo : Type := {
  active_hwnd : Z;
  active_window_title : pystr;
  active_process_name : pystr;
  active_pid : Z
}.

Record AppEntry : Type := {
  pid : Z;
  process_name : pystr;
  window_title : pystr
}.

(** [get_active_window_info]: the argument is what
    [win32gui.GetForegroundWindow()] designates, [None] for the null
    handle. *)
Definition get_active_window_info (foreground : option Window)
    : result (option ActiveAppInfo) :=
  match foreground with
  | None => Return None
  | Some w =>
      if hwnd w =? 0 then Return None
      else
        let title := GetWindowText w in
        let '(tid, pid) := GetWindowThreadProcessId w in
        proc_name <-
          try_except_clauses (process_lookup w)
            [ ([NoSuchProcess], Return (lit "Unknown"));
              ([AccessDenied], Return (lit "AccessDenied")) ] ;;
        Return (Some {| active_hwnd := hwnd w;
                        active_window_title := title;
                        active_process_name := proc_name;
                        active_pid := pid |})
  end.

Definition system_like : list pystr :=
  [ lit "svchost.exe";
    lit "System Idle Process";
    lit "System";
    lit "SearchApp.exe";
    lit "RuntimeBroker.exe" ].

(** [name in system_like] *)
Definition in_set (name : pystr) (s : list pystr) : bool :=
  existsb (pystr_eqb name) s.

(** The dict [apps_by_pid], in insertion order. *)
Definition apps_dict := list (Z * AppEntry).

Fixpoint apps_lookup (d : apps_dict) (k : Z) : option AppEntry :=
  match d with
  | [] => None
  | (k', e) :: rest => if k' =? k then Some e else apps_lookup rest k
  end.

(** [apps_by_pid[pid] = entry] for a new key. *)
Definition apps_add (d : apps_dict) (k : Z) (e : AppEntry) : apps_dict :=
  d ++ [(k, e)].

(** [apps_by_pid[pid]["window_title"] = title] *)
Fixpoint apps_set_title (d : apps_dict) (k : Z) (title : pystr) : apps_dict :=
  match d with
  | [] => []
  | (k', e) :: rest =>
      if k' =? k
      then (k', {| pid := pid e; process_name := process_name e;
                   window_title := title |}) :: rest
      else (k', e) :: apps_set_title rest k title
  end.

(** The name resolution of [enum_window_callback]. *)
Definition resolve_proc_name (w : Window) : result pystr :=
  try_except (process_lookup w)
    [NoSuchProcess; AccessDenied; ZombieProcess] (Return (lit "Unknown")).

(** [enum_window_callback]: one visit, on the dict built so far. *)
Definition enum_window_callback (apps_by_pid : apps_dict) (w : Window)
    : result apps_dict :=
  if negb (IsWindowVisible w) then Return apps_by_pid
  else
    let title := GetWindowText w in
    if negb (truthy (JStr (strip title))) then Return apps_by_pid
    else
      let '(rect0, rect1, rect2, rect3) := GetWindowRect w in
      let width := rect2 - rect0 in
      let height := rect3 - rect1 in
      if (width <? 100) || (height <? 50) then Return apps_by_pid
      else
        let '(tid, pid) := GetWindowThreadProcessId w in
        proc_name <- resolve_proc_name w ;;
        if in_set proc_name system_like then Return apps_by_pid
        else
          match apps_lookup apps_by_pid pid with
          | None =>
              Return (apps_add apps_by_pid pid
                        {| pid := pid; process_name := proc_name;
                           window_title := title |})
          | Some e =>
              if len title >? len (window_title e)
              then Return (apps_set_title apps_by_pid pid title)
              else Return apps_by_pid
          end.

(** [win32gui.EnumWindows]: the callback visits the windows in order; an
    exception in the callback ends the enumeration. *)
Fixpoint EnumWindows (ws : list Window) (apps_by_pid : apps_dict)
    : result apps_dict :=
  match ws with
  | [] => Return apps_by_pid
  | w :: rest =>
      d <- enum_window_callback apps_by_pid w ;;
      EnumWindows rest d
  end.

(** [list.sort(key=...)]: a stable sort that compares keys with [<]. *)
Fixpoint sort_insert {A : Type} (key : A -> pystr) (x : A) (l : list A)
    : list A :=
  match l with
  | [] => [x]
  | y :: l' =>
      if pystr_ltb (key y) (key x) then y :: sort_insert key x l'
      else x :: l
  end.

Definition list_sort {A : Type} (key : A -> pystr) (l : list A) : list A :=
  fold_right (sort_insert key) [] l.

Definition get_open_apps `{Builtins} (ws : list Window)
    : result (list AppEntry) :=
  apps_by_pid <- EnumWindows ws [] ;;
  let apps := map snd apps_by_pid in
  Return (list_sort (fun x => str_lower (process_name x)) apps).

(* ================================================================== *)
(** * The collector: [server.py] *)
(* ================================================================== *)

(** ** Time stamps *)

Record datetime : Type := {
  year : Z; month : Z; day : Z;
  hour : Z; minute : Z; second : Z
}.

Definition digit (n : Z) : N := (48 + Z.to_N (n mod 10))%N.

Definition pad2 (n : Z) : pystr := [digit (n / 10); digit n].

Definition pad4 (n : Z) : pystr :=
  [digit (n / 1000); digit (n / 100); digit (n / 10); digit n].

(** [t.strftime("%Y-%m-%d %H:%M:%S")] *)
Definition strftime (t : datetime) : pystr :=
  pad4 (year t) ++ lit "-" ++ pad2 (month t) ++ lit "-" ++ pad2 (day t)
  ++ lit " " ++ pad2 (hour t) ++ lit ":" ++ pad2 (minute t) ++ lit ":"
  ++ pad2 (second t).

(** ** Requests and responses *)

Record Request : Type := {
  (** [request.headers.get("X-Auth-Token")] *)
  header_X_Auth_Token : option pystr;
  (** [request.is_json]: the content type announces JSON *)
  is_json : bool;
  (** what the JSON decoder makes of the request data; [None] when the
      data is not a JSON text *)
  body_json : option json
}.

(** [request.get_json(force=..., silent=...)] *)
Definition get_json (force silent : bool) (req : Request) : result json :=
  if negb (force || is_json req)
  then (if silent then Return JNull else Raise BadRequest)
  else match body_json req with
       | Some v => Return v
       | None => if silent then Return JNull else Raise BadRequest
       end.

Record Response : Type := {
  body : json;
  status : Z
}.

Definition field (k : string) (v : json) : pystr * json := (lit k, v).

(** [jsonify(v)] and [jsonify(v), code] *)
Definition jsonify (v : json) : Response := {| body := v; status := 200 |}.
Definition jsonify_status (v : json) (code : Z) : Response :=
  {| body := v; status := code |}.

(** What the client of the HTTP server sees: an exception that leaves a
    view function is answered by Flask with status 500. *)
Definition http_status {S : Type} (r : result (Response * S)) : Z :=
  match r with
  | Return (resp, _) => status resp
  | Raise _ => 500
  end.

(** ** The store *)

Record ActivityRow : Type := {
  activity_created_at : datetime;
  active_process : json;
  active_title : json;
  apps_json : pystr
}.

Record HeartRateRow : Type := {
  heart_rate_created_at : datetime;
  rate : Z;
  heart_rate_source : json
}.

Record PhoneStatusRow : Type := {
  phone_created_at : datetime;
  locked : json;
  battery : option Z;
  app : json;
  phone_source : json
}.

(** A table with an AUTO_INCREMENT primary key [id]. *)
Record Table (R : Type) : Type := {
  rows : list (Z * R);
  auto_increment : Z
}.

Arguments rows {R} t.
Arguments auto_increment {R} t.

Definition empty_table {R : Type} : Table R :=
  {| rows := []; auto_increment := 1 |}.

(** [INSERT INTO t (...) VALUES (...)] *)
Definition insert {R : Type} (t : Table R) (r : R) : Table R :=
  {| rows := rows t ++ [(auto_increment t, r)];
     auto_increment := auto_increment t + 1 |}.

Fixpoint insert_desc {R : Type} (x : Z * R) (l : list (Z * R))
    : list (Z * R) :=
  match l with
  | [] => [x]
  | y :: l' => if fst y <? fst x then x :: l else y :: insert_desc x l'
  end.

(** [ORDER BY id DESC] *)
Definition order_by_id_desc {R : Type} (l : list (Z * R)) : list (Z * R) :=
  fold_right insert_desc [] l.

(** [SELECT ... FROM t ORDER BY id DESC LIMIT n] *)
Definition select_latest {R : Type} (n : nat) (t : Table R) : list (Z * R) :=
  firstn n (order_by_id_desc (rows t)).

Record DB : Type := {
  activity : Table ActivityRow;
  heart_rate : Table HeartRateRow;
  phone_status_table : Table PhoneStatusRow
}.

(** What the surroundings answer during one request. *)
Record Env : Type := {
  (** [datetime.utcnow()] *)
  utcnow : datetime;
  (** a call of [mysql.connector] (connect, execute, commit, fetch)
      raises during this request *)
  storage_fault : bool
}.

(** The statements of a [try] block that talks to the store. *)
Definition storage {A : Type} (env : Env) (answer : A) : result A :=
  if storage_fault env then Raise MySQLError else Return answer.

Section Server.

Context `{Builtins}.
Variable SECRET_TOKEN : pystr.

Definition check_token_from_request (req : Request) : result bool :=
  let token :=
    match header_X_Auth_Token req with
    | Some s => JStr s
    | None => JNull
    end in
  token <-
    (if negb (truthy token) then
       data <- try_except
                 (v <- get_json false true req ;; Return (py_or v (JDict [])))
                 [Exception] (Return (JDict [])) ;;
       py_get data (lit "token") JNull
     else Return token) ;;
  if negb (py_eq_str token SECRET_TOKEN) then Return false
  else Return true.

Definition unauthorized : Response :=
  jsonify_status (JDict [field "error" (JStr (lit "unauthorized"))]) 401.

Definition invalid_json : Response :=
  jsonify_status (JDict [field "error" (JStr (lit "invalid json"))]) 400.

Definition db_error : Response :=
  jsonify_status (JDict [field "error" (JStr (lit "db error"))]) 500.

(** POST /api/status *)
Definition update_status (env : Env) (req : Request) (db : DB)
    : result (Response * DB) :=
  ok <- check_token_from_request req ;;
  if negb ok then Return (unauthorized, db)
  else
    try_except_else (get_json true false req) [Exception]
      (Return (invalid_json, db))
      (fun data =>
         a <- py_get data (lit "active") JNull ;;
         let active := py_or a (JDict []) in
         b <- py_get data (lit "apps") JNull ;;
         let apps := py_or b (JList []) in
         let created_at := utcnow env in
         active_process <- py_get active (lit "process_name") JNull ;;
         active_title <- py_get active (lit "window_title") JNull ;;
         let apps_json := json_dumps apps in
         let row := {| activity_created_at := created_at;
                       active_process := active_process;
                       active_title := active_title;
                       apps_json := apps_json |} in
         try_except_else
           (storage env
              {| activity := insert (activity db) row;
                 heart_rate := heart_rate db;
                 phone_status_table := phone_status_table db |})
           [Exception]
           (Return (db_error, db))
           (fun db' => Return (jsonify (JDict [field "ok" (JBool true)]), db'))).

(** GET /api/current *)
Definition get_current (env : Env) (db : DB) : result (Response * DB) :=
  try_except_else
    (storage env (hd_error (select_latest 1 (activity db))))
    [Exception]
    (Return (db_error, db))
    (fun row =>
       match row with
       | None =>
           Return (jsonify (JDict [field "status" (JStr (lit "no data yet"))]),
                   db)
       | Some (_, r) =>
           apps <- try_except (json_loads (apps_json r))
                     [Exception] (Return (JList [])) ;;
           Return
             (jsonify
                (JDict
                   [ field "timestamp"
                       (JStr (strftime (activity_created_at r)));
                     field "active"
                       (JDict
                          [ field "process_name" (active_process r);
                            field "window_title" (active_title r) ]);
                     field "apps" apps ]),
              db)
       end).

(** POST /api/heartrate *)
Definition heartrate (env : Env) (req : Request) (db : DB)
    : result (Response * DB) :=
  ok <- check_token_from_request req ;;
  if negb ok then Return (unauthorized, db)
  else
    try_except_else (get_json true false req) [Exception]
      (Return (invalid_json, db))
      (fun data =>
         rate <- py_get data (lit "rate") JNull ;;
         source <- py_get data (lit "source") (JStr (lit "shortcut")) ;;
         try_except_else (py_int rate) [TypeError; ValueError]
           (Return
              (jsonify_status
                 (JDict [field "error" (JStr (lit "invalid rate"))]) 400,
               db))
           (fun rate =>
              let created_at := utcnow env in
              let row := {| heart_rate_created_at := created_at;
                            rate := rate;
                            heart_rate_source := source |} in
              try_except_else
                (storage env
                   {| activity := activity db;
                      heart_rate := insert (heart_rate db) row;
                      phone_status_table := phone_status_table db |})
                [Exception]
                (Return (db_error, db))
                (fun db' =>
                   Return
                     (jsonify (JDict [field "status" (JStr (lit "ok"))]),
                      db')))).

(** One point of the history: [{"timestamp": ..., "rate": ...}]. *)
Definition point (r : HeartRateRow) : json :=
  JDict [ field "timestamp" (JStr (strftime (heart_rate_created_at r)));
          field "rate" (JInt (rate r)) ].

(** GET /api/heartrate_history *)
Definition heartrate_history (env : Env) (db : DB) : result (Response * DB) :=
  let limit := 40%nat in
  try_except_else
    (storage env (select_latest limit (heart_rate db)))
    [Exception]
    (Return (db_error, db))
    (fun rows =>
       match rows with
       | [] => Return (jsonify (JDict [field "points" (JList [])]), db)
       | _ =>
           let rows := rev rows in
           let points := map (fun r => point (snd r)) rows in
           Return (jsonify (JDict [field "points" (JList points)]), db)
       end).

(** POST /api/phone_status *)
Definition phone_status (env : Env) (req : Request) (db : DB)
    : result (Response * DB) :=
  ok <- check_token_from_request req ;;
  if negb ok then Return (unauthorized, db)
  else
    try_except_else (get_json true false req) [Exception]
      (Return (invalid_json, db))
      (fun data =>
         locked <- py_get data (lit "locked") JNull ;;
         battery <- py_get data (lit "battery") JNull ;;
         appname <- py_get data (lit "app") JNull ;;
         source <- py_get data (lit "source") (JStr (lit "iphone")) ;;
         let created_at := utcnow env in
         battery <- try_except (b <- py_int battery ;; Return (Some b))
                      [Exception] (Return None) ;;
         let row := {| phone_created_at := created_at;
                       locked := locked;
                       battery := battery;
                       app := appname;
                       phone_source := source |} in
         try_except_else
           (storage env
              {| activity := activity db;
                 heart_rate := heart_rate db;
                 phone_status_table := insert (phone_status_table db) row |})
           [Exception]
           (Return (db_error, db))
           (fun db' =>
              Return
                (jsonify (JDict [field "status" (JStr (lit "ok"))]), db'))).

End Server.

(* ================================================================== *)
(** * Vocabulary of the specification *)
(* ================================================================== *)

(** A window survives rules 1 to 5 of the enumerator: it is visible, its
    title is not blank, it is at least 100 by 50, and the name resolved
    for its process is not on the denylist. *)
Definition qualifies (w : Window) : bool :=
  IsWindowVisible w
  && truthy (JStr (strip (GetWindowText w)))
  && (let '(rect0, rect1, rect2, rect3) := GetWindowRect w in
      negb ((rect2 - rect0 <? 100) || (rect3 - rect1 <? 50)))
  && match resolve_proc_name w with
     | Return name => negb (in_set name system_like)
     | Raise _ => false
     end.

Definition owner (w : Window) : Z := snd (GetWindowThreadProcessId w).

(** The qualifying windows of process [p], in enumeration order. *)
Definition qualifying (ws : list Window) (p : Z) : list Window :=
  filter (fun w => qualifies w && (owner w =? p)) ws.

(** [t] is the first of the longest titles of [titles]. *)
Definition first_longest (titles : list pystr) (t : pystr) : Prop :=
  exists before after,
    titles = before ++ t :: after
    /\ Forall (fun u => len u < len t) before
    /\ Forall (fun u => len u <= len t) after.

(** The lookup of a process either answers or fails in one of the three
    ways the client provides for. *)
Definition lookup_provided_for (w : Window) : Prop :=
  match process_lookup w with
  | Return _ => True
  | Raise e => e = NoSuchProcess \/ e = ZombieProcess \/ e = AccessDenied
  end.

(** The process of the window is gone, a zombie or inaccessible. *)
Definition lookup_fails (w : Window) : Prop :=
  process_lookup w = Raise NoSuchProcess
  \/ process_lookup w = Raise ZombieProcess
  \/ process_lookup w = Raise AccessDenied.

(** The table after the rows [rs] were inserted one after the other. *)
Definition insert_all {R : Type} (t : Table R) (rs : list R) : Table R :=
  fold_left insert rs t.

(** The entry of a process with another title. *)
Definition with_title (t : pystr) (e : AppEntry) : AppEntry :=
  {| pid := pid e; process_name := process_name e; window_title := t |}.

(** After the windows [done] were visited: a process has an entry exactly
    when it has a qualifying window; the entry carries the name resolved
    for the first of them and the first of their longest titles. *)
Definition entry_ok (done : list Window) (k : Z) (o : option AppEntry)
    : Prop :=
  match o with
  | None => qualifying done k = []
  | Some e =>
      pid e = k
      /\ (exists w0 rest,
            qualifying done k = w0 :: rest
            /\ resolve_proc_name w0 = Return (process_name e))
      /\ first_longest (map GetWindowText (qualifying done k))
                       (window_title e)
  end.

Definition dict_inv (done : list Window) (d : apps_dict) : Prop :=
  NoDup (map fst d) /\ forall k, entry_ok done k (apps_lookup d k).

(** The apps that [get_open_apps] reports for [sample_windows]. *)
Definition sample_apps : list AppEntry :=
  [ {| pid := 8; process_name := lit "Chrome.exe";
       window_title := lit "Docs" |};
    {| pid := 7; process_name := lit "Unknown";
       window_title := lit "Inbox" |};
    {| pid := 42; process_name := lit "zoom.exe";
       window_title := lit "ABCDE" |} ].

(* ================================================================== *)
(** * A runtime to run the model on *)
(* ================================================================== *)

Definition ascii_lower (s : pystr) : pystr :=
  map (fun c => if (65 <=? c) && (c <=? 90) then c + 32 else c)%N s.

Definition ascii_digit (c : N) : option Z :=
  if ((48 <=? c) && (c <=? 57))%N then Some (Z.of_N (c - 48)) else None.

(** Decimal digits, single underscores allowed between two digits. *)
Fixpoint digits_value (acc : Z) (s : pystr) (after_digit : bool)
    : option Z :=
  match s with
  | [] => if after_digit then Some acc else None
  | c :: s' =>
      if (c =? 95)%N
      then (if after_digit then digits_value acc s' false else None)
      else match ascii_digit c with
           | Some d => digits_value (10 * acc + d) s' true
           | None => None
           end
  end.

Definition ascii_int_of_str (s : pystr) : option Z :=
  match strip s with
  | 43%N :: r => digits_value 0 r false
  | 45%N :: r => option_map Z.opp (digits_value 0 r false)
  | r => digits_value 0 r false
  end.

(** A JSON codec that knows three texts, enough to store and reload an
    empty app list; every other text is rejected. *)
Definition small_loads (s : pystr) : result json :=
  if pystr_eqb s (lit "[]") then Return (JList [])
  else if pystr_eqb s (lit "{}") then Return (JDict [])
  else if pystr_eqb s (lit "null") then Return JNull
  else Raise JSONDecodeError.

Definition small_dumps (v : json) : pystr :=
  match v with
  | JList [] => lit "[]"
  | JDict [] => lit "{}"
  | JNull => lit "null"
  | _ => lit "..."
  end.

Definition ascii_runtime : Builtins :=
  {| str_lower := ascii_lower;
     int_of_str := ascii_int_of_str;
     json_loads := small_loads;
     json_dumps := small_dumps |}.

(** ** Sample inputs *)

Definition window (h : Z) (title : string) (width height : Z) (p : Z)
    (name : result pystr) : Window :=
  {| hwnd := h;
     IsWindowVisible := true;
     GetWindowText := lit title;
     GetWindowRect := (0, 0, width, height);
     GetWindowThreadProcessId := (1, p);
     process_lookup := name |}.

Definition sample_windows : list Window :=
  [ window 11 "A" 800 600 42 (Return (lit "zoom.exe"));
    window 12 "tooltip" 80 20 42 (Return (lit "zoom.exe"));
    window 13 "ABCDE" 800 600 42 (Return (lit "zoom.exe"));
    window 14 "Inbox" 640 480 7 (Raise AccessDenied);
    window 15 "VWXYZ" 800 600 42 (Return (lit "zoom.exe"));
    window 16 "Host" 640 480 9 (Return (lit "svchost.exe"));
    window 17 "Docs" 640 480 8 (Return (lit "Chrome.exe")) ].

Definition denied_window : Window :=
  window 14 "Inbox" 640 480 7 (Raise AccessDenied).

Definition at_noon (s : Z) : datetime :=
  {| year := 2025; month := 11; day := 24;
     hour := 12; minute := 34; second := s |}.

(** ** Vocabulary of the store and sample requests *)

(** No foreground window: no handle, or the null handle. *)
Definition no_foreground (fg : option Window) : Prop :=
  match fg with
  | None => True
  | Some w => hwnd w = 0
  end.

(** The rows of a table in the order of their ids, all below the
    counter: what inserts alone produce. *)
Definition ascending {R : Type} (t : Table R) : Prop :=
  StronglySorted (fun a b : Z * R => fst a < fst b) (rows t)
  /\ Forall (fun r => fst r < auto_increment t) (rows t).

(** The answer of GET /api/current that shows the row [r] with the app
    list [apps]. *)
Definition current_view (r : ActivityRow) (apps : json) : Response :=
  jsonify
    (JDict
       [ field "timestamp" (JStr (strftime (activity_created_at r)));
         field "active"
           (JDict [ field "process_name" (active_process r);
                    field "window_title" (active_title r) ]);
         field "apps" apps ]).

(** The app list that GET /api/current shows for the row [r]. *)
Definition shown_apps `{Builtins} (r : ActivityRow) : json :=
  match json_loads (apps_json r) with
  | Return apps => apps
  | Raise _ => JList []
  end.

Definition no_data_yet : Response :=
  jsonify (JDict [field "status" (JStr (lit "no data yet"))]).

(** The answer of GET /api/heartrate_history with the given rows. *)
Definition history_view (rs : list HeartRateRow) : Response :=
  jsonify (JDict [field "points" (JList (map point rs))]).

Definition status_ok : Response :=
  jsonify (JDict [field "status" (JStr (lit "ok"))]).

Definition invalid_rate : Response :=
  jsonify_status (JDict [field "error" (JStr (lit "invalid rate"))]) 400.

(** The credential that the check reads from a request: the header when
    it is not empty, else the [token] field of a JSON object body. *)
Definition credential (req : Request) : json :=
  match header_X_Auth_Token req with
  | Some (c :: s) => JStr (c :: s)
  | _ =>
      match get_json false true req with
      | Return (JDict items) => dict_get items (lit "token") JNull
      | _ => JNull
      end
  end.

(** The body that the check reads is a JSON object, or nothing that
    counts: not JSON, not announced as JSON, or a falsy value. *)
Definition body_is_object_or_void (req : Request) : Prop :=
  match get_json false true req with
  | Return (JDict _) => True
  | Return v => truthy v = false
  | Raise _ => True
  end.

Definition empty_db : DB :=
  {| activity := empty_table;
     heart_rate := empty_table;
     phone_status_table := empty_table |}.

Definition fair_weather (t : datetime) : Env :=
  {| utcnow := t; storage_fault := false |}.

(** No header, and the JSON body [[1]]. *)
Definition list_body_request : Request :=
  {| header_X_Auth_Token := None;
     is_json := true;
     body_json := Some (JList [JInt 1]) |}.

(** No header, and the JSON body [{}]. *)
Definition empty_object_request : Request :=
  {| header_X_Auth_Token := None;
     is_json := true;
     body_json := Some (JDict []) |}.

(** An empty header, and the secret in the body. *)
Definition empty_header_request (secret : pystr) : Request :=
  {| header_X_Auth_Token := Some [];
     is_json := true;
     body_json := Some (JDict [field "token" (JStr secret)]) |}.

(** The secret in header and body, and the rate [1e999]. *)
Definition infinite_rate_request (secret : pystr) : Request :=
  {| header_X_Auth_Token := Some secret;
     is_json := true;
     body_json :=
       Some (JDict [ field "token" (JStr secret);
                     field "rate" (JFloat (Infinity false)) ]) |}.

(** The secret in the header, and the given rate. *)
Definition rate_request (secret : pystr) (rate : json) : Request :=
  {| header_X_Auth_Token := Some secret;
     is_json := true;
     body_json :=
       Some (JDict [ field "token" (JStr secret); field "rate" rate ]) |}.

(** A wrong header, and a body that is not JSON. *)
Definition malformed_request : Request :=
  {| header_X_Auth_Token := Some (lit "guess");
     is_json := true;
     body_json := None |}.

Definition sample_secret : pystr := lit "CHANGE_ME_TO_SAME_SECRET_AS_SERVER".

Definition activity_row (s : Z) (name : string) (apps : string)
    : ActivityRow :=
  {| activity_created_at := at_noon s;
     active_process := JStr (lit name);
     active_title := JStr (lit "main");
     apps_json := lit apps |}.

(** Three reports; the clock of the second ran behind the first. *)
Definition skewed_rows : list ActivityRow :=
  [ activity_row 30 "one.exe" "[]";
    activity_row 10 "two.exe" "[]";
    activity_row 40 "three.exe" "[]" ].

Definition skewed_db : DB :=
  {| activity := insert_all empty_table skewed_rows;
     heart_rate := empty_table;
     phone_status_table := empty_table |}.

(** A store whose latest report carries a text that is not JSON. *)
Definition corrupt_db : DB :=
  {| activity :=
       insert_all empty_table
         [activity_row 30 "one.exe" "[]"; activity_row 40 "two.exe" "[{"];
     heart_rate := empty_table;
     phone_status_table := empty_table |}.

Definition heart_rate_row (n : Z) : HeartRateRow :=
  {| heart_rate_created_at := at_noon (n mod 60);
     rate := 60 + n;
     heart_rate_source := JStr (lit "shortcut") |}.

(** The rates [heart_rate_row 0 .. heart_rate_row (n-1)]. *)
Definition sample_rates (n : nat) : list HeartRateRow :=
  map (fun i => heart_rate_row (Z.of_nat i)) (seq 0 n).

(** The store after [sample_rates n] were inserted. *)
Definition heart_db (n : nat) : DB :=
  {| activity := empty_table;
     heart_rate := insert_all empty_table (sample_rates n);
     phone_status_table := empty_table |}.

(* ================================================================== *)
(** * The rest of the code *)
(* ================================================================== *)

(** ** The reporter: [main_loop] of [monitor_apps.py] *)

(** The dicts that the probe and the enumerator return, as JSON. *)
Definition active_json (active : option ActiveAppInfo) : json :=
  match active with
  | None => JNull
  | Some a =>
      JDict [ field "hwnd" (JInt (active_hwnd a));
              field "window_title" (JStr (active_window_title a));
              field "process_name" (JStr (active_process_name a));
              field "pid" (JInt (active_pid a)) ]
  end.

Definition app_json (e : AppEntry) : json :=
  JDict [ field "pid" (JInt (pid e));
          field "process_name" (JStr (process_name e));
          field "window_title" (JStr (window_title e)) ].

(** What the surroundings answer during one pass of the loop. *)
Record Cycle : Type := {
  (** [datetime.now()] *)
  cycle_now : datetime;
  cycle_foreground : option Window;
  cycle_windows : list Window;
  (** [requests.post(...)]: the status code and text of the response, or
      the exception of the attempt *)
  cycle_post : result (Z * pystr)
}.

(** The line that a pass prints. *)
Inductive Upload : Type :=
| Uploaded (now_str : pystr) (status_code : Z) (text : pystr)
| UploadFailed (now_str : pystr) (e : pyexc).

(** [requests.post(SERVER_URL, json=payload, headers={"X-Auth-Token":
    token})] as the request that the server receives: the library
    announces JSON and the payload is its body. *)
Definition requests_post (token : pystr) (payload : json) : Request :=
  {| header_X_Auth_Token := Some token;
     is_json := true;
     body_json := Some payload |}.

Section Reporter.

Context `{Builtins}.
Variable SECRET_TOKEN : pystr.

(** The [payload] of one pass. *)
Definition payload (now_str : pystr) (active : option ActiveAppInfo)
    (apps : list AppEntry) : json :=
  JDict [ field "timestamp" (JStr now_str);
          field "active" (active_json active);
          field "apps" (JList (map app_json apps)) ].

(** The body of [while True]: the request that is posted and the line
    that is printed. *)
Definition report_once (c : Cycle) : result (Request * Upload) :=
  let now_str := strftime (cycle_now c) in
  active <- get_active_window_info (cycle_foreground c) ;;
  apps <- get_open_apps (cycle_windows c) ;;
  let sent := requests_post SECRET_TOKEN (payload now_str active apps) in
  match cycle_post c with
  | Return resp => Return (sent, Uploaded now_str (fst resp) (snd resp))
  | Raise e =>
      if issubclass e Exception then Return (sent, UploadFailed now_str e)
      else Raise e
  end.

(** [main_loop] over the passes that begin before the interrupt: what was
    posted and printed, and the exception that ended the loop, if any. *)
Fixpoint main_loop (cycles : list Cycle)
    : list (Request * Upload) * option pyexc :=
  match cycles with
  | [] => ([], None)
  | c :: rest =>
      match report_once c with
      | Raise e => ([], Some e)
      | Return x => let '(xs, stop) := main_loop rest in (x :: xs, stop)
      end
  end.

End Reporter.

(** ** The other read endpoints of [server.py] *)

Definition no_data : Response :=
  jsonify (JDict [field "status" (JStr (lit "no data"))]).

(** GET /api/latest_heartrate *)
Definition latest_heartrate (env : Env) (db : DB) : result (Response * DB) :=
  try_except_else
    (storage env (hd_error (select_latest 1 (heart_rate db))))
    [Exception]
    (Return (db_error, db))
    (fun row =>
       match row with
       | None => Return (no_data, db)
       | Some (_, r) =>
           Return
             (jsonify
                (JDict
                   [ field "timestamp"
                       (JStr (strftime (heart_rate_created_at r)));
                     field "rate" (JInt (rate r)) ]),
              db)
       end).

(** A nullable integer column as [jsonify] shows it. *)
Definition nullable_int (v : option Z) : json :=
  match v with
  | Some n => JInt n
  | None => JNull
  end.

(** GET /api/phone_latest *)
Definition phone_latest (env : Env) (db : DB) : result (Response * DB) :=
  try_except_else
    (storage env (hd_error (select_latest 1 (phone_status_table db))))
    [Exception]
    (Return (db_error, db))
    (fun row =>
       match row with
       | None => Return (no_data, db)
       | Some (_, r) =>
           Return
             (jsonify
                (JDict
                   [ field "timestamp" (JStr (strftime (phone_created_at r)));
                     field "locked" (locked r);
                     field "battery" (nullable_int (battery r));
                     field "app" (app r) ]),
              db)
       end).

(** ** Vocabulary for the rest *)

Definition width (w : Window) : Z :=
  let '(rect0, rect1, rect2, rect3) := GetWindowRect w in rect2 - rect0.

Definition height (w : Window) : Z :=
  let '(rect0, rect1, rect2, rect3) := GetWindowRect w in rect3 - rect1.

(** No later element has a smaller key. *)
Definition sorted_by {A : Type} (key : A -> pystr) (l : list A) : Prop :=
  StronglySorted (fun a b => pystr_ltb (key b) (key a) = false) l.

(** The three tables hold their rows in the order of their ids. *)
Definition db_ascending (db : DB) : Prop :=
  ascending (activity db) /\ ascending (heart_rate db)
  /\ ascending (phone_status_table db).

Definition with_activity (db : DB) (r : ActivityRow) : DB :=
  {| activity := insert (activity db) r;
     heart_rate := heart_rate db;
     phone_status_table := phone_status_table db |}.

Definition with_heart_rate (db : DB) (r : HeartRateRow) : DB :=
  {| activity := activity db;
     heart_rate := insert (heart_rate db) r;
     phone_status_table := phone_status_table db |}.

Definition with_phone_status (db : DB) (r : PhoneStatusRow) : DB :=
  {| activity := activity db;
     heart_rate := heart_rate db;
     phone_status_table := insert (phone_status_table db) r |}.

Definition ok_true : Response := jsonify (JDict [field "ok" (JBool true)]).

(** The answer of GET /api/latest_heartrate that shows the row [r]. *)
Definition heart_rate_view (r : HeartRateRow) : Response :=
  jsonify (point r).

(** The answer of GET /api/phone_latest that shows the row [r]. *)
Definition phone_view (r : PhoneStatusRow) : Response :=
  jsonify
    (JDict [ field "timestamp" (JStr (strftime (phone_created_at r)));
             field "locked" (locked r);
             field "battery" (nullable_int (battery r));
             field "app" (app r) ]).



(** The lookups of a pass fail, if at all, in the ways the client
    provides for. *)
Definition capture_provided_for (c : Cycle) : Prop :=
  (forall w, cycle_foreground c = Some w -> lookup_provided_for w)
  /\ Forall lookup_provided_for (cycle_windows c).

(** ** More sample inputs *)


(** A cycle without windows at all. *)
Definition idle_cycle : Cycle :=
  {| cycle_now := at_noon 2;
     cycle_foreground := None;
     cycle_windows := [];
     cycle_post := Raise Exception |}.


(** A window whose process lookup fails in a way the client does not
    provide for. *)
Definition broken_window : Window :=
  window 21 "Editor" 800 600 5 (Raise PsutilError).

Definition phone_row (s : Z) (level : option Z) : PhoneStatusRow :=
  {| phone_created_at := at_noon s;
     locked := JStr (lit "no");
     battery := level;
     app := JStr (lit "Mail");
     phone_source := JStr (lit "iphone") |}.

(** [heart_db 3] after one more rate was posted at [at_noon 9]. *)
Definition grown_heart_db : DB :=
  with_heart_rate (heart_db 3)
    {| heart_rate_created_at := at_noon 9; rate := 80;
       heart_rate_source := JStr (lit "shortcut") |}.

(** The secret in the header, and the given JSON body. *)
Definition signed_request (secret : pystr) (v : json) : Request :=
  {| header_X_Auth_Token := Some secret;
     is_json := true;
     body_json := Some v |}.


(* ================================================================== *)
(** * Properties *)
(* ================================================================== *)

(** ** Strings *)

Lemma pystr_eqb_eq (a b : pystr) : pystr_eqb a b = true <-> a = b.
Proof.
  revert b; induction a as [|x a IH]; intros [|y b]; simpl;
    try (split; [discriminate | congruence]); try tauto.
  rewrite andb_true_iff, N.eqb_eq, IH.
  split; [intros [-> ->]; reflexivity | intros E; inversion E; auto].
Qed.

Lemma pystr_eqb_refl (a : pystr) : pystr_eqb a a = true.
Proof. apply pystr_eqb_eq; reflexivity. Qed.

Lemma pystr_eqb_neq (a b : pystr) : pystr_eqb a b = false <-> a <> b.
Proof.
  rewrite <- pystr_eqb_eq. destruct (pystr_eqb a b); split; congruence.
Qed.

(** ** The dict of the enumerator *)

Lemma apps_lookup_add (d : apps_dict) (k k' : Z) (e : AppEntry) :
  apps_lookup (apps_add d k e) k' =
  match apps_lookup d k' with
  | Some x => Some x
  | None => if k =? k' then Some e else None
  end.
Proof.
  unfold apps_add. induction d as [|[k0 e0] d IH]; simpl.
  - reflexivity.
  - destruct (k0 =? k'); [reflexivity | exact IH].
Qed.

Lemma apps_lookup_set_title (d : apps_dict) (k k' : Z) (t : pystr) :
  apps_lookup (apps_set_title d k t) k' =
  if k =? k' then option_map (with_title t) (apps_lookup d k')
  else apps_lookup d k'.
Proof.
  induction d as [|[k0 e0] d IH]; simpl.
  - destruct (k =? k'); reflexivity.
  - destruct (Z.eqb_spec k0 k) as [->|Hk0]; simpl.
    + destruct (Z.eqb_spec k k'); reflexivity.
    + destruct (Z.eqb_spec k0 k') as [->|Hk']; simpl.
      * destruct (Z.eqb_spec k k'); [congruence | reflexivity].
      * exact IH.
Qed.

Lemma apps_set_title_keys (d : apps_dict) (k : Z) (t : pystr) :
  map fst (apps_set_title d k t) = map fst d.
Proof.
  induction d as [|[k0 e0] d IH]; simpl; [reflexivity|].
  destruct (k0 =? k); simpl; [reflexivity | now rewrite IH].
Qed.

Lemma apps_lookup_None (d : apps_dict) (k : Z) :
  apps_lookup d k = None <-> ~ In k (map fst d).
Proof.
  induction d as [|[k0 e0] d IH]; simpl.
  - tauto.
  - destruct (Z.eqb_spec k0 k) as [->|Hk].
    + split; [discriminate | tauto].
    + rewrite IH. tauto.
Qed.

Lemma apps_lookup_In (d : apps_dict) (k : Z) (e : AppEntry) :
  NoDup (map fst d) -> In (k, e) d -> apps_lookup d k = Some e.
Proof.
  induction d as [|[k0 e0] d IH]; simpl; intros Hnd Hin; [contradiction|].
  inversion Hnd as [|? ? Hnot Hnd']; subst.
  destruct Hin as [E|Hin].
  - inversion E; subst. now rewrite Z.eqb_refl.
  - destruct (Z.eqb_spec k0 k) as [->|Hk]; [|auto].
    exfalso. apply Hnot. change k with (fst (k, e)). now apply in_map.
Qed.

Lemma apps_lookup_Some (d : apps_dict) (k : Z) (e : AppEntry) :
  apps_lookup d k = Some e -> In (k, e) d.
Proof.
  induction d as [|[k0 e0] d IH]; simpl; [discriminate|].
  destruct (Z.eqb_spec k0 k) as [->|Hk].
  - intros E. inversion E. now left.
  - intros E. right. now apply IH.
Qed.

(** ** One visit of the callback *)

Arguments in_set : simpl never.
Arguments resolve_proc_name : simpl never.

Lemma callback_Return (d d' : apps_dict) (w : Window) :
  enum_window_callback d w = Return d' ->
  if qualifies w
  then exists name,
         resolve_proc_name w = Return name
         /\ d' = match apps_lookup d (owner w) with
                 | None =>
                     apps_add d (owner w)
                       {| pid := owner w; process_name := name;
                          window_title := GetWindowText w |}
                 | Some e =>
                     if len (GetWindowText w) >? len (window_title e)
                     then apps_set_title d (owner w) (GetWindowText w)
                     else d
                 end
  else d' = d.
Proof.
  unfold enum_window_callback, qualifies, owner.
  destruct (IsWindowVisible w); simpl; [|congruence].
  destruct (strip (GetWindowText w)) as [|c0 s0]; simpl; [congruence|].
  destruct (GetWindowRect w) as [[[r0 r1] r2] r3].
  destruct ((r2 - r0 <? 100) || (r3 - r1 <? 50)); simpl; [congruence|].
  destruct (GetWindowThreadProcessId w) as [tid own]; simpl.
  destruct (resolve_proc_name w) as [name|e]; simpl; [|discriminate].
  destruct (in_set name system_like); simpl; [congruence|].
  intros E. exists name. split; [reflexivity|].
  destruct (apps_lookup d own) as [e|].
  - destruct (len (GetWindowText w) >? len (window_title e)); congruence.
  - congruence.
Qed.

Lemma qualifying_snoc (done : list Window) (w : Window) (k : Z) :
  qualifying (done ++ [w]) k =
  qualifying done k ++ (if qualifies w && (owner w =? k) then [w] else []).
Proof.
  unfold qualifying. rewrite filter_app. simpl.
  destruct (qualifies w && (owner w =? k)); reflexivity.
Qed.

(** ** The first of the longest titles *)

Lemma first_longest_single (t : pystr) : first_longest [t] t.
Proof. exists [], []. repeat split; constructor. Qed.

Lemma first_longest_longer (titles : list pystr) (t t' : pystr) :
  first_longest titles t -> len t < len t' ->
  first_longest (titles ++ [t']) t'.
Proof.
  intros (before & after & -> & Hb & Ha) Hlt.
  exists (before ++ t :: after), []. repeat split.
  - apply Forall_app. split.
    + eapply Forall_impl; [|exact Hb]. simpl. intros; lia.
    + constructor; [exact Hlt|].
      eapply Forall_impl; [|exact Ha]. simpl. intros; lia.
  - constructor.
Qed.

Lemma first_longest_keep (titles : list pystr) (t t' : pystr) :
  first_longest titles t -> len t' <= len t ->
  first_longest (titles ++ [t']) t.
Proof.
  intros (before & after & -> & Hb & Ha) Hle.
  exists before, (after ++ [t']). repeat split.
  - now rewrite <- app_assoc.
  - exact Hb.
  - apply Forall_app. split; [exact Ha|]. constructor; [exact Hle|constructor].
Qed.

(** ** The invariant of the enumeration *)

Lemma dict_inv_nil : dict_inv [] [].
Proof. split; [constructor | intros k; reflexivity]. Qed.

Lemma entry_ok_skip (done : list Window) (w : Window) (k : Z)
    (o : option AppEntry) :
  qualifies w && (owner w =? k) = false ->
  entry_ok done k o -> entry_ok (done ++ [w]) k o.
Proof.
  intros Hq. unfold entry_ok. rewrite qualifying_snoc, Hq, app_nil_r. auto.
Qed.

Lemma dict_inv_step (done : list Window) (d d' : apps_dict) (w : Window) :
  dict_inv done d ->
  enum_window_callback d w = Return d' ->
  dict_inv (done ++ [w]) d'.
Proof.
  intros [Hnd Hok] Hcb. apply callback_Return in Hcb.
  destruct (qualifies w) eqn:Hq.
  2:{ subst d'. split; [exact Hnd|]. intros k.
      apply entry_ok_skip; [now rewrite Hq | apply Hok]. }
  destruct Hcb as (name & Hname & ->).
  pose proof (Hok (owner w)) as Hown.
  destruct (apps_lookup d (owner w)) as [e|] eqn:Hl.
  - (* the process already has an entry *)
    destruct Hown as (Hpid & (w0 & rest & Hw0 & Hres) & Hfl).
    destruct (Z.gtb_spec (len (GetWindowText w)) (len (window_title e)))
      as [Hgt|Hle].
    + split; [now rewrite apps_set_title_keys|].
      intros k. rewrite apps_lookup_set_title.
      destruct (Z.eqb_spec (owner w) k) as [<-|Hk].
      * rewrite Hl. simpl. unfold entry_ok.
        rewrite qualifying_snoc, Hq, Z.eqb_refl. simpl.
        split; [exact Hpid|]. split.
        -- exists w0, (rest ++ [w]). rewrite Hw0. split; [reflexivity|exact Hres].
        -- rewrite map_app. simpl. eapply first_longest_longer; eauto.
      * apply entry_ok_skip; [|apply Hok].
        rewrite Hq. simpl. now apply Z.eqb_neq.
    + split; [exact Hnd|].
      intros k. destruct (Z.eqb_spec (owner w) k) as [<-|Hk].
      * rewrite Hl. unfold entry_ok.
        rewrite qualifying_snoc, Hq, Z.eqb_refl. simpl.
        split; [exact Hpid|]. split.
        -- exists w0, (rest ++ [w]). rewrite Hw0. split; [reflexivity|exact Hres].
        -- rewrite map_app. simpl. eapply first_longest_keep; eauto.
      * apply entry_ok_skip; [|apply Hok].
        rewrite Hq. simpl. now apply Z.eqb_neq.
  - (* the first qualifying window of the process *)
    simpl in Hown. split.
    + unfold apps_add. rewrite map_app. simpl.
      apply NoDup_app; [exact Hnd | repeat constructor; intros [] |].
      intros a Ha [<-|[]]. now apply apps_lookup_None in Hl.
    + intros k. rewrite apps_lookup_add.
      destruct (Z.eqb_spec (owner w) k) as [<-|Hk].
      * rewrite Hl. unfold entry_ok.
        rewrite qualifying_snoc, Hq, Z.eqb_refl, Hown. simpl.
        split; [reflexivity|]. split.
        -- exists w, []. split; [reflexivity | exact Hname].
        -- apply first_longest_single.
      * assert (Hskip : qualifies w && (owner w =? k) = false).
        { rewrite Hq. simpl. now apply Z.eqb_neq. }
        specialize (Hok k).
        destruct (apps_lookup d k); now apply entry_ok_skip.
Qed.

Lemma EnumWindows_inv (ws done : list Window) (d d' : apps_dict) :
  dict_inv done d ->
  EnumWindows ws d = Return d' ->
  dict_inv (done ++ ws) d'.
Proof.
  revert done d. induction ws as [|w ws IH]; simpl; intros done d Hinv Hrun.
  - rewrite app_nil_r. congruence.
  - destruct (enum_window_callback d w) as [d1|e] eqn:Hcb; simpl in Hrun;
      [|discriminate].
    replace (done ++ w :: ws) with ((done ++ [w]) ++ ws)
      by (rewrite <- app_assoc; reflexivity).
    eapply IH; [|exact Hrun]. eapply dict_inv_step; eauto.
Qed.

Lemma dict_inv_pids (done : list Window) (d : apps_dict) :
  dict_inv done d -> map pid (map snd d) = map fst d.
Proof.
  intros [Hnd Hok]. rewrite map_map. apply map_ext_in.
  intros [k e] Hin. simpl.
  specialize (Hok k). rewrite (apps_lookup_In d k e Hnd Hin) in Hok.
  apply Hok.
Qed.

Lemma dict_inv_entry (done : list Window) (d : apps_dict) (e : AppEntry) :
  dict_inv done d -> In e (map snd d) -> entry_ok done (pid e) (Some e).
Proof.
  intros [Hnd Hok] Hin. apply in_map_iff in Hin.
  destruct Hin as ([k e'] & E & Hin). simpl in E. subst e'.
  specialize (Hok k). rewrite (apps_lookup_In d k e Hnd Hin) in Hok.
  destruct Hok as (Hpid & Hrest). rewrite Hpid. split; [exact Hpid|exact Hrest].
Qed.

(** ** Sorting *)

Lemma sort_insert_perm {A : Type} (key : A -> pystr) (x : A) (l : list A) :
  Permutation (sort_insert key x l) (x :: l).
Proof.
  induction l as [|y l IH]; simpl.
  - apply Permutation_refl.
  - destruct (pystr_ltb (key y) (key x)).
    + eapply Permutation_trans; [apply perm_skip, IH | apply perm_swap].
    + apply Permutation_refl.
Qed.

Lemma list_sort_perm {A : Type} (key : A -> pystr) (l : list A) :
  Permutation (list_sort key l) l.
Proof.
  induction l as [|x l IH]; simpl.
  - apply Permutation_refl.
  - eapply Permutation_trans; [apply sort_insert_perm | apply perm_skip, IH].
Qed.

(** ** The enumerator *)

Lemma get_open_apps_inv `{Builtins} (ws : list Window) (apps : list AppEntry) :
  get_open_apps ws = Return apps ->
  exists d, dict_inv ws d /\ Permutation apps (map snd d).
Proof.
  unfold get_open_apps.
  destruct (EnumWindows ws []) as [d|e] eqn:Hrun; simpl; [|discriminate].
  intros E. inversion E; subst. exists d. split.
  - change ws with ([] ++ ws).
    eapply EnumWindows_inv; [apply dict_inv_nil | exact Hrun].
  - apply list_sort_perm.
Qed.

Lemma resolve_proc_name_provided (w : Window) :
  lookup_provided_for w ->
  resolve_proc_name w =
  Return match process_lookup w with
         | Return name => name
         | Raise _ => lit "Unknown"
         end.
Proof.
  unfold lookup_provided_for, resolve_proc_name.
  destruct (process_lookup w) as [name|e]; simpl; [reflexivity|].
  intros [->|[->| ->]]; reflexivity.
Qed.

Lemma callback_total (d : apps_dict) (w : Window) :
  lookup_provided_for w -> exists d', enum_window_callback d w = Return d'.
Proof.
  intros Hw. unfold enum_window_callback.
  rewrite (resolve_proc_name_provided w Hw).
  destruct (IsWindowVisible w); simpl; [|eauto].
  destruct (strip (GetWindowText w)) as [|c0 s0]; simpl; [eauto|].
  destruct (GetWindowRect w) as [[[r0 r1] r2] r3].
  destruct ((r2 - r0 <? 100) || (r3 - r1 <? 50)); simpl; [eauto|].
  destruct (GetWindowThreadProcessId w) as [tid own]; simpl.
  destruct (in_set _ system_like); [eauto|].
  destruct (apps_lookup d own) as [e|]; [|eauto].
  destruct (len (GetWindowText w) >? len (window_title e)); eauto.
Qed.

Lemma EnumWindows_total (ws : list Window) (d : apps_dict) :
  Forall lookup_provided_for ws -> exists d', EnumWindows ws d = Return d'.
Proof.
  intros Hws. revert d. induction Hws as [|w ws Hw _ IH]; intros d; simpl.
  - eauto.
  - destruct (callback_total d w Hw) as [d1 ->]. simpl. apply IH.
Qed.

(** C3. Whatever the raw window list, [get_open_apps] emits at most one
    entry per process id, and the title of an entry is the first of the
    longest titles among the qualifying windows of its process: a longer
    title replaces the kept one, a title of equal length does not. Every
    process with a qualifying window has its entry. *)
Theorem get_open_apps_one_entry_per_pid `{Builtins}
    (ws : list Window) (apps : list AppEntry) :
  get_open_apps ws = Return apps ->
  NoDup (map pid apps)
  /\ (forall e, In e apps ->
        first_longest (map GetWindowText (qualifying ws (pid e)))
                      (window_title e))
  /\ (forall p, qualifying ws p <> [] -> exists e, In e apps /\ pid e = p).
Proof.
  intros Hrun. destruct (get_open_apps_inv ws apps Hrun) as (d & Hinv & Hperm).
  split; [|split].
  - eapply Permutation_NoDup.
    + apply Permutation_sym, Permutation_map, Hperm.
    + rewrite (dict_inv_pids ws d Hinv). apply Hinv.
  - intros e He.
    assert (Hin : In e (map snd d)) by (eapply Permutation_in; eauto).
    apply (dict_inv_entry ws d e Hinv Hin).
  - intros p Hp. destruct Hinv as [Hnd Hok]. specialize (Hok p).
    destruct (apps_lookup d p) as [e|] eqn:Hl; [|contradiction].
    exists e. split; [|apply Hok].
    apply (Permutation_in _ (Permutation_sym Hperm)).
    apply apps_lookup_Some in Hl.
    change e with (snd (p, e)). now apply in_map.
Qed.

Lemma get_open_apps_one_entry_per_pid_witness :
  NoDup (map pid sample_apps)
  /\ (forall e, In e sample_apps ->
        first_longest (map GetWindowText (qualifying sample_windows (pid e)))
                      (window_title e))
  /\ (forall p, qualifying sample_windows p <> [] ->
        exists e, In e sample_apps /\ pid e = p).
Proof.
  apply (@get_open_apps_one_entry_per_pid ascii_runtime sample_windows).
  vm_compute. reflexivity.
Defined.

(** C4, as the code has it. When the process of a window is gone, a zombie
    or inaccessible, [get_open_apps] substitutes the one sentinel
    "Unknown" in all three cases, and the enumeration does not fail: it
    returns its list, in which the name of an entry is the name looked up
    for the first qualifying window of its process, or "Unknown". *)
Theorem get_open_apps_unknown_sentinel `{Builtins} (ws : list Window) :
  Forall lookup_provided_for ws ->
  (forall w, In w ws -> lookup_fails w ->
     resolve_proc_name w = Return (lit "Unknown"))
  /\ exists apps,
       get_open_apps ws = Return apps
       /\ forall e, In e apps ->
            exists w0 rest,
              qualifying ws (pid e) = w0 :: rest
              /\ process_name e = match process_lookup w0 with
                                  | Return name => name
                                  | Raise _ => lit "Unknown"
                                  end.
Proof.
  intros Hws. split.
  - intros w Hin Hfail.
    rewrite Forall_forall in Hws.
    rewrite (resolve_proc_name_provided w (Hws w Hin)).
    destruct Hfail as [E|[E|E]]; rewrite E; reflexivity.
  - destruct (EnumWindows_total ws [] Hws) as [d Hrun].
    exists (list_sort (fun x => str_lower (process_name x)) (map snd d)).
    assert (Hget : get_open_apps ws =
                   Return (list_sort (fun x => str_lower (process_name x))
                             (map snd d))).
    { unfold get_open_apps. rewrite Hrun. reflexivity. }
    split; [exact Hget|].
    intros e He.
    destruct (get_open_apps_inv ws _ Hget) as (d' & Hinv & Hperm).
    assert (Hin : In e (map snd d')) by (eapply Permutation_in; eauto).
    destruct (dict_inv_entry ws d' e Hinv Hin)
      as (_ & (w0 & rest & Hq & Hres) & _).
    exists w0, rest. split; [exact Hq|].
    assert (Hw0 : In w0 ws).
    { assert (Hf : In w0 (qualifying ws (pid e)))
        by (rewrite Hq; left; reflexivity).
      apply filter_In in Hf. apply Hf. }
    rewrite Forall_forall in Hws.
    rewrite (resolve_proc_name_provided w0 (Hws w0 Hw0)) in Hres.
    inversion Hres. reflexivity.
Qed.

Lemma get_open_apps_unknown_sentinel_witness :
  (forall w, In w sample_windows -> lookup_fails w ->
     resolve_proc_name w = Return (lit "Unknown"))
  /\ exists apps,
       @get_open_apps ascii_runtime sample_windows = Return apps
       /\ forall e, In e apps ->
            exists w0 rest,
              qualifying sample_windows (pid e) = w0 :: rest
              /\ process_name e = match process_lookup w0 with
                                  | Return name => name
                                  | Raise _ => lit "Unknown"
                                  end.
Proof.
  apply (@get_open_apps_unknown_sentinel ascii_runtime sample_windows).
  unfold sample_windows.
  repeat (constructor; [unfold lookup_provided_for; simpl; auto|]).
  constructor.
Defined.

(** C4, as the claim has it, fails: for a window of an inaccessible
    process the enumerator reports "Unknown", not "AccessDenied". *)
Lemma get_open_apps_access_denied_is_unknown :
  process_lookup denied_window = Raise AccessDenied
  /\ exists e,
       @get_open_apps ascii_runtime [denied_window] = Return [e]
       /\ process_name e = lit "Unknown"
       /\ process_name e <> lit "AccessDenied".
Proof.
  split; [reflexivity|].
  eexists. split; [vm_compute; reflexivity|].
  split; [reflexivity | vm_compute; discriminate].
Qed.

(** ** The probe of the foreground window *)

Lemma probe_name_total (w : Window) :
  lookup_provided_for w ->
  try_except_clauses (process_lookup w)
    [ ([NoSuchProcess], Return (lit "Unknown"));
      ([AccessDenied], Return (lit "AccessDenied")) ]
  = Return match process_lookup w with
           | Return name => name
           | Raise AccessDenied => lit "AccessDenied"
           | Raise _ => lit "Unknown"
           end.
Proof.
  unfold lookup_provided_for.
  destruct (process_lookup w) as [name|e]; [reflexivity|].
  intros [->|[->| ->]]; reflexivity.
Qed.

(** C5, as the code has it. [get_active_window_info] does not raise when
    the process of the foreground window is gone, a zombie or
    inaccessible: it returns absent exactly when there is no foreground
    window, and else an ActiveAppInfo with the handle, title and process
    id of the window, whose name is the looked-up name, "Unknown" for a
    process that is gone or a zombie, and "AccessDenied" for one that is
    inaccessible (where the enumerator says "Unknown"). *)
Theorem get_active_window_info_total (fg : option Window) :
  (forall w, fg = Some w -> lookup_provided_for w) ->
  exists r,
    get_active_window_info fg = Return r
    /\ (r = None <-> no_foreground fg)
    /\ forall w, fg = Some w -> hwnd w <> 0 ->
         exists info,
           r = Some info
           /\ active_hwnd info = hwnd w
           /\ active_window_title info = GetWindowText w
           /\ active_pid info = owner w
           /\ (forall name, process_lookup w = Return name ->
                 active_process_name info = name)
           /\ (process_lookup w = Raise NoSuchProcess ->
                 active_process_name info = lit "Unknown")
           /\ (process_lookup w = Raise ZombieProcess ->
                 active_process_name info = lit "Unknown")
           /\ (process_lookup w = Raise AccessDenied ->
                 active_process_name info = lit "AccessDenied").
Proof.
  intros Hfg. destruct fg as [w|]; simpl.
  2:{ exists None. repeat split; auto. intros w E; discriminate. }
  specialize (Hfg w eq_refl).
  destruct (Z.eqb_spec (hwnd w) 0) as [Hz|Hnz].
  - exists None. repeat split; auto.
    intros w' E Hw'. inversion E; subst. contradiction.
  - unfold owner. destruct (GetWindowThreadProcessId w) as [tid own] eqn:Htp.
    rewrite (probe_name_total w Hfg). simpl.
    eexists. split; [reflexivity|]. split.
    + split; [discriminate | intros Hz; contradiction].
    + intros w' E _. inversion E; subst w'. rewrite Htp.
      eexists. split; [reflexivity|]. simpl.
      repeat split; try (intros ? E'; rewrite E'; reflexivity);
        intros E'; rewrite E'; reflexivity.
Qed.

Lemma get_active_window_info_total_witness :
  exists r,
    get_active_window_info (Some denied_window) = Return r
    /\ (r = None <-> no_foreground (Some denied_window))
    /\ forall w, Some denied_window = Some w -> hwnd w <> 0 ->
         exists info,
           r = Some info
           /\ active_hwnd info = hwnd w
           /\ active_window_title info = GetWindowText w
           /\ active_pid info = owner w
           /\ (forall name, process_lookup w = Return name ->
                 active_process_name info = name)
           /\ (process_lookup w = Raise NoSuchProcess ->
                 active_process_name info = lit "Unknown")
           /\ (process_lookup w = Raise ZombieProcess ->
                 active_process_name info = lit "Unknown")
           /\ (process_lookup w = Raise AccessDenied ->
                 active_process_name info = lit "AccessDenied").
Proof.
  apply (get_active_window_info_total (Some denied_window)).
  intros w E. inversion E. unfold lookup_provided_for. simpl. auto.
Defined.

(** C5, as the claim has it, fails: for the window of an inaccessible
    process the probe says "AccessDenied" and the enumerator "Unknown". *)
Lemma probe_and_enumerator_differ :
  lookup_fails denied_window
  /\ exists info e,
       get_active_window_info (Some denied_window) = Return (Some info)
       /\ @get_open_apps ascii_runtime [denied_window] = Return [e]
       /\ active_process_name info = lit "AccessDenied"
       /\ process_name e = lit "Unknown"
       /\ active_process_name info <> process_name e.
Proof.
  split; [right; right; reflexivity|].
  do 2 eexists. split; [vm_compute; reflexivity|].
  split; [vm_compute; reflexivity|].
  split; [reflexivity|]. split; [reflexivity|].
  vm_compute; discriminate.
Qed.

(** ** Tables: inserts and [ORDER BY id DESC] *)

Lemma insert_desc_perm {R : Type} (x : Z * R) (l : list (Z * R)) :
  Permutation (insert_desc x l) (x :: l).
Proof.
  induction l as [|y l IH]; simpl.
  - apply Permutation_refl.
  - destruct (fst y <? fst x).
    + apply Permutation_refl.
    + eapply Permutation_trans; [apply perm_skip, IH | apply perm_swap].
Qed.

Lemma order_by_id_desc_perm {R : Type} (l : list (Z * R)) :
  Permutation (order_by_id_desc l) l.
Proof.
  induction l as [|x l IH]; simpl.
  - apply Permutation_refl.
  - eapply Permutation_trans; [apply insert_desc_perm | apply perm_skip, IH].
Qed.

Lemma insert_desc_sorted {R : Type} (x : Z * R) (l : list (Z * R)) :
  StronglySorted (fun a b => fst b <= fst a) l ->
  StronglySorted (fun a b => fst b <= fst a) (insert_desc x l).
Proof.
  induction 1 as [|y l Hs IH Hy]; simpl.
  - repeat constructor.
  - destruct (Z.ltb_spec (fst y) (fst x)) as [Hlt|Hge].
    + constructor; [constructor; assumption|].
      constructor; [lia|].
      eapply Forall_impl; [|exact Hy]. simpl. intros; lia.
    + constructor; [exact IH|].
      rewrite Forall_forall. intros z Hz.
      apply (Permutation_in _ (insert_desc_perm x l)) in Hz.
      destruct Hz as [<-|Hz]; [exact Hge|].
      rewrite Forall_forall in Hy. now apply Hy.
Qed.

Lemma order_by_id_desc_sorted {R : Type} (l : list (Z * R)) :
  StronglySorted (fun a b => fst b <= fst a) (order_by_id_desc l).
Proof.
  induction l as [|x l IH]; simpl; [constructor|].
  now apply insert_desc_sorted.
Qed.

Lemma insert_desc_smallest {R : Type} (x : Z * R) (l : list (Z * R)) :
  Forall (fun y => fst x < fst y) l -> insert_desc x l = l ++ [x].
Proof.
  induction 1 as [|y l Hy _ IH]; simpl; [reflexivity|].
  destruct (Z.ltb_spec (fst y) (fst x)); [lia|]. now rewrite IH.
Qed.

Lemma order_by_id_desc_rev {R : Type} (l : list (Z * R)) :
  StronglySorted (fun a b => fst a < fst b) l ->
  order_by_id_desc l = rev l.
Proof.
  induction 1 as [|x l Hs IH Hx]; simpl; [reflexivity|].
  rewrite IH. apply insert_desc_smallest. now apply Forall_rev.
Qed.

Lemma StronglySorted_snoc {A : Type} (R : A -> A -> Prop) (l : list A)
    (x : A) :
  StronglySorted R l -> Forall (fun a => R a x) l ->
  StronglySorted R (l ++ [x]).
Proof.
  induction 1 as [|y l Hs IH Hy]; simpl; intros Hx.
  - repeat constructor.
  - inversion Hx; subst. constructor; [auto|].
    apply Forall_app. split; [exact Hy | repeat constructor; assumption].
Qed.

Lemma StronglySorted_rev {A : Type} (R : A -> A -> Prop) (l : list A) :
  StronglySorted R l -> StronglySorted (fun a b => R b a) (rev l).
Proof.
  induction 1 as [|y l Hs IH Hy]; simpl; [constructor|].
  apply StronglySorted_snoc; [exact IH | now apply Forall_rev].
Qed.

Lemma StronglySorted_firstn {A : Type} (R : A -> A -> Prop) (n : nat)
    (l : list A) :
  StronglySorted R l -> StronglySorted R (firstn n l).
Proof.
  intros Hs. revert n. induction Hs as [|y l Hs IH Hy]; intros [|n]; simpl;
    try constructor; auto.
  rewrite Forall_forall in *. intros z Hz. apply Hy.
  eapply In_nth_error in Hz. destruct Hz as [i Hi].
  apply nth_error_In with (n := i).
  rewrite nth_error_firstn in Hi.
  destruct (i <? n)%nat; [exact Hi | discriminate].
Qed.

Lemma StronglySorted_split {A : Type} (R : A -> A -> Prop) (n : nat)
    (l : list A) (a b : A) :
  StronglySorted R l -> In a (firstn n l) -> In b (skipn n l) -> R a b.
Proof.
  intros Hs. revert n. induction Hs as [|y l Hs IH Hy]; intros [|n]; simpl;
    try contradiction.
  intros [<-|Ha] Hb.
  - rewrite Forall_forall in Hy. apply Hy.
    rewrite <- (firstn_skipn n l). apply in_or_app. now right.
  - eapply IH; eauto.
Qed.

Lemma empty_table_ascending {R : Type} : ascending (@empty_table R).
Proof. split; constructor. Qed.

Lemma insert_ascending {R : Type} (t : Table R) (r : R) :
  ascending t -> ascending (insert t r).
Proof.
  intros [Hs Hb]. split; simpl.
  - apply StronglySorted_snoc; assumption.
  - apply Forall_app. split.
    + eapply Forall_impl; [|exact Hb]. simpl. intros; lia.
    + repeat constructor. simpl. lia.
Qed.

Lemma insert_all_ascending {R : Type} (rs : list R) (t : Table R) :
  ascending t -> ascending (insert_all t rs).
Proof.
  revert t. induction rs as [|r rs IH]; simpl; intros t Ht; [exact Ht|].
  apply IH. now apply insert_ascending.
Qed.

Lemma insert_all_rows {R : Type} (rs : list R) (t : Table R) :
  map snd (rows (insert_all t rs)) = map snd (rows t) ++ rs.
Proof.
  unfold insert_all. revert t. induction rs as [|r rs IH]; simpl; intros t.
  - now rewrite app_nil_r.
  - rewrite IH. simpl. rewrite map_app, <- app_assoc. reflexivity.
Qed.

(** Of a table filled by inserts alone, the query returns the rows
    inserted last, newest first. *)
Lemma select_latest_inserted {R : Type} (n : nat) (rs : list R) :
  map snd (select_latest n (insert_all empty_table rs)) =
  rev (skipn (length rs - n) rs).
Proof.
  unfold select_latest.
  pose proof (insert_all_ascending rs _ (@empty_table_ascending R)) as [Hs _].
  pose proof (insert_all_rows rs (@empty_table R)) as Hrows. simpl in Hrows.
  rewrite (order_by_id_desc_rev _ Hs), firstn_rev, map_rev, <- skipn_map.
  rewrite <- (length_map snd (rows _)), Hrows. reflexivity.
Qed.

(** The first row of the ordered table has the greatest id. *)
Lemma select_latest_one {R : Type} (t : Table R) :
  match hd_error (select_latest 1 t) with
  | None => rows t = []
  | Some x => In x (rows t) /\ forall y, In y (rows t) -> fst y <= fst x
  end.
Proof.
  unfold select_latest.
  pose proof (order_by_id_desc_perm (rows t)) as Hp.
  pose proof (order_by_id_desc_sorted (rows t)) as Hs.
  destruct (order_by_id_desc (rows t)) as [|x l]; simpl.
  - now apply Permutation_nil.
  - split.
    + apply (Permutation_in _ Hp). now left.
    + intros y Hy. apply (Permutation_in _ (Permutation_sym Hp)) in Hy.
      inversion Hs as [|? ? _ Hx]; subst.
      destruct Hy as [<-|Hy]; [lia|].
      rewrite Forall_forall in Hx. now apply Hx.
Qed.

(** ** GET /api/current *)

Lemma get_current_run `{Builtins} (env : Env) (db : DB) :
  storage_fault env = false ->
  get_current env db =
  Return (match hd_error (select_latest 1 (activity db)) with
          | None => no_data_yet
          | Some (_, r) => current_view r (shown_apps r)
          end, db).
Proof.
  intros Hf. unfold get_current, storage, shown_apps. rewrite Hf. simpl.
  destruct (hd_error (select_latest 1 (activity db))) as [[i r]|];
    [|reflexivity].
  destruct (json_loads (apps_json r)); reflexivity.
Qed.

Lemma get_current_fault `{Builtins} (env : Env) (db : DB) :
  storage_fault env = true -> get_current env db = Return (db_error, db).
Proof. intros Hf. unfold get_current, storage. now rewrite Hf. Qed.

Lemma latest_inserted {R : Type} (rs : list R) (r : R) :
  exists i,
    hd_error (select_latest 1 (insert_all empty_table (rs ++ [r])))
    = Some (i, r).
Proof.
  pose proof (select_latest_inserted 1 (rs ++ [r])) as E.
  rewrite length_app, skipn_app in E. simpl in E.
  replace (length rs + 1 - 1)%nat with (length rs) in E by lia.
  rewrite skipn_all, Nat.sub_diag in E. simpl in E.
  destruct (select_latest 1 (insert_all empty_table (rs ++ [r])))
    as [|[i r'] l]; simpl in E; [discriminate|].
  inversion E; subst. now exists i.
Qed.

(** C1. With the store reachable, GET /api/current answers "no data yet"
    (status 200, not an error) on an empty activity table, and else shows
    a row whose id is the greatest of the table, whatever the time stamps
    of the rows are; after a sequence of inserts this is the row inserted
    last. *)
Theorem get_current_latest `{Builtins} (env : Env) (db : DB) :
  storage_fault env = false ->
  (rows (activity db) = [] ->
     get_current env db = Return (no_data_yet, db)
     /\ status no_data_yet = 200)
  /\ (rows (activity db) <> [] ->
        exists i r,
          In (i, r) (rows (activity db))
          /\ (forall y, In y (rows (activity db)) -> fst y <= i)
          /\ get_current env db = Return (current_view r (shown_apps r), db))
  /\ (forall rs r,
        activity db = insert_all empty_table (rs ++ [r]) ->
        get_current env db = Return (current_view r (shown_apps r), db)).
Proof.
  intros Hf. rewrite (get_current_run env db Hf).
  pose proof (select_latest_one (activity db)) as Hmax.
  split; [|split].
  - intros Hnil. split; [|reflexivity].
    destruct (hd_error (select_latest 1 (activity db))) as [[i r]|];
      [|reflexivity].
    destruct Hmax as [Hin _]. rewrite Hnil in Hin. contradiction.
  - intros Hne.
    destruct (hd_error (select_latest 1 (activity db))) as [[i r]|];
      [|contradiction].
    destruct Hmax as [Hin Hge]. exists i, r. auto.
  - intros rs r E. rewrite E.
    destruct (latest_inserted rs r) as [i ->]. reflexivity.
Qed.

Lemma get_current_latest_witness :
  @get_current ascii_runtime (fair_weather (at_noon 50)) skewed_db
  = Return (current_view (activity_row 40 "three.exe" "[]") (JList []),
            skewed_db).
Proof.
  destruct (@get_current_latest ascii_runtime (fair_weather (at_noon 50))
              skewed_db eq_refl) as (_ & _ & Hlast).
  apply (Hlast [activity_row 30 "one.exe" "[]"; activity_row 10 "two.exe" "[]"]
               (activity_row 40 "three.exe" "[]")).
  reflexivity.
Defined.

Lemma rows_unique {R : Type} (l : list (Z * R)) (i : Z) (r r' : R) :
  NoDup (map fst l) -> In (i, r) l -> In (i, r') l -> r = r'.
Proof.
  induction l as [|[k x] l IH]; simpl; intros Hnd H1 H2; [contradiction|].
  inversion Hnd as [|? ? Hnot Hnd']; subst.
  assert (Hk : forall y, In (k, y) l -> False).
  { intros y Hy. apply Hnot. change k with (fst (k, y)). now apply in_map. }
  destruct H1 as [E1|H1], H2 as [E2|H2].
  - congruence.
  - inversion E1; subst. destruct (Hk _ H2).
  - inversion E2; subst. destruct (Hk _ H1).
  - now apply IH.
Qed.

(** C8. When the [apps_json] of the activity row with the greatest id
    does not deserialize, GET /api/current still answers with status 200
    and shows the time stamp and the active fields of that row, with an
    empty app list. *)
Theorem get_current_corrupt_apps `{Builtins} (env : Env) (db : DB)
    (i : Z) (r : ActivityRow) (e : pyexc) :
  storage_fault env = false ->
  NoDup (map fst (rows (activity db))) ->
  In (i, r) (rows (activity db)) ->
  (forall y, In y (rows (activity db)) -> fst y <= i) ->
  json_loads (apps_json r) = Raise e ->
  get_current env db = Return (current_view r (JList []), db)
  /\ status (current_view r (JList [])) = 200.
Proof.
  intros Hf Hnd Hin Hmax Hload. split; [|reflexivity].
  rewrite (get_current_run env db Hf).
  pose proof (select_latest_one (activity db)) as Hhd.
  destruct (hd_error (select_latest 1 (activity db))) as [[i' r']|].
  - destruct Hhd as [Hin' Hmax'].
    assert (i' = i).
    { specialize (Hmax _ Hin'). specialize (Hmax' _ Hin). simpl in *. lia. }
    subst i'. rewrite (rows_unique _ i r' r Hnd Hin' Hin).
    unfold shown_apps. now rewrite Hload.
  - rewrite Hhd in Hin. contradiction.
Qed.

Lemma get_current_corrupt_apps_witness :
  @get_current ascii_runtime (fair_weather (at_noon 50)) corrupt_db
  = Return (current_view (activity_row 40 "two.exe" "[{") (JList []),
            corrupt_db)
  /\ status (current_view (activity_row 40 "two.exe" "[{") (JList [])) = 200.
Proof.
  apply (@get_current_corrupt_apps ascii_runtime (fair_weather (at_noon 50))
           corrupt_db 2 (activity_row 40 "two.exe" "[{") JSONDecodeError).
  - reflexivity.
  - simpl. repeat constructor; simpl; intuition discriminate.
  - simpl. right. left. reflexivity.
  - simpl. intros y [<-|[<-|[]]]; simpl; lia.
  - reflexivity.
Defined.

(** ** GET /api/heartrate_history *)

Lemma heartrate_history_run (env : Env) (db : DB) :
  storage_fault env = false ->
  heartrate_history env db =
  Return (history_view (map snd (rev (select_latest 40 (heart_rate db)))),
          db).
Proof.
  intros Hf. unfold heartrate_history, storage, history_view. rewrite Hf.
  simpl. destruct (select_latest 40 (heart_rate db)) as [|x l].
  - reflexivity.
  - now rewrite map_map.
Qed.

(** C7. With the store reachable, GET /api/heartrate_history shows the
    rows with the greatest ids, at most 40 of them and all rows when there
    are fewer, in the order of ascending id; of a table filled by inserts
    these are the last 40 rows inserted, oldest first, so with 45 inserted
    rows exactly the 40 most recent; of an empty table the list of points
    is empty. *)
Theorem heartrate_history_recent (env : Env) (db : DB) :
  storage_fault env = false ->
  (exists recent older,
      heartrate_history env db = Return (history_view (map snd recent), db)
      /\ Permutation (rows (heart_rate db)) (recent ++ older)
      /\ length recent = Nat.min 40 (length (rows (heart_rate db)))
      /\ StronglySorted (fun a b => fst a <= fst b) recent
      /\ forall a b, In a recent -> In b older -> fst b <= fst a)
  /\ (forall rs,
        heart_rate db = insert_all empty_table rs ->
        heartrate_history env db =
        Return (history_view (skipn (length rs - 40) rs), db))
  /\ (forall rs,
        heart_rate db = insert_all empty_table rs -> length rs = 45%nat ->
        heartrate_history env db = Return (history_view (skipn 5 rs), db)
        /\ length (skipn 5 rs) = 40%nat)
  /\ (rows (heart_rate db) = [] ->
        heartrate_history env db = Return (history_view [], db)).
Proof.
  intros Hf. rewrite (heartrate_history_run env db Hf).
  assert (Hins : forall rs,
             heart_rate db = insert_all empty_table rs ->
             map snd (rev (select_latest 40 (heart_rate db)))
             = skipn (length rs - 40) rs).
  { intros rs E. rewrite E, map_rev, select_latest_inserted.
    apply rev_involutive. }
  split; [|split; [|split]].
  - unfold select_latest.
    set (s := order_by_id_desc (rows (heart_rate db))).
    pose proof (order_by_id_desc_perm (rows (heart_rate db))) as Hp.
    pose proof (order_by_id_desc_sorted (rows (heart_rate db))) as Hs.
    fold s in Hp, Hs.
    exists (rev (firstn 40 s)), (skipn 40 s). split; [reflexivity|].
    split; [|split; [|split]].
    + eapply Permutation_trans; [apply Permutation_sym, Hp|].
      rewrite <- (firstn_skipn 40 s) at 1.
      apply Permutation_app_tail, Permutation_rev.
    + rewrite length_rev, length_firstn.
      now rewrite (Permutation_length Hp).
    + apply (StronglySorted_rev (fun a b => fst b <= fst a)).
      now apply StronglySorted_firstn.
    + intros a b Ha Hb. apply in_rev in Ha.
      apply (StronglySorted_split (fun a b => fst b <= fst a) 40 s a b Hs Ha Hb).
  - intros rs E. now rewrite (Hins rs E).
  - intros rs E Hlen. rewrite (Hins rs E), Hlen. simpl Nat.sub.
    split; [reflexivity|]. rewrite length_skipn. lia.
  - intros Hnil. unfold select_latest. rewrite Hnil. reflexivity.
Qed.

Lemma heartrate_history_recent_witness :
  heartrate_history (fair_weather (at_noon 50)) (heart_db 45)
  = Return (history_view (skipn 5 (sample_rates 45)), heart_db 45)
  /\ length (skipn 5 (sample_rates 45)) = 40%nat.
Proof.
  destruct (heartrate_history_recent (fair_weather (at_noon 50)) (heart_db 45)
              eq_refl) as (_ & _ & H45 & _).
  apply H45; [reflexivity | vm_compute; reflexivity].
Defined.

(** ** The credential check *)

Arguments pystr_eqb : simpl never.
Arguments lit : simpl never.

Lemma check_token_nonempty_header (secret : pystr) (req : Request)
    (c : N) (s : pystr) :
  header_X_Auth_Token req = Some (c :: s) ->
  check_token_from_request secret req = Return (pystr_eqb (c :: s) secret).
Proof.
  intros Hh. unfold check_token_from_request. rewrite Hh. simpl.
  destruct (pystr_eqb (c :: s) secret); reflexivity.
Qed.

(** The data that the check reads when the header is absent or empty. *)
Lemma check_token_body (secret : pystr) (req : Request) :
  header_X_Auth_Token req = None \/ header_X_Auth_Token req = Some [] ->
  check_token_from_request secret req =
  (token <- py_get (match get_json false true req with
                    | Return v => py_or v (JDict [])
                    | Raise _ => JDict []
                    end) (lit "token") JNull ;;
   Return (py_eq_str token secret)).
Proof.
  intros Hh. unfold check_token_from_request.
  assert (E : truthy match header_X_Auth_Token req with
                     | Some s => JStr s
                     | None => JNull
                     end = false)
    by (destruct Hh as [-> | ->]; reflexivity).
  rewrite E. simpl negb. cbv iota.
  destruct (get_json false true req) as [v|e]; simpl.
  - destruct (py_get (py_or v (JDict [])) (lit "token") JNull) as [t|e];
      simpl; [|reflexivity].
    destruct (py_eq_str t secret); reflexivity.
  - reflexivity.
Qed.

Lemma header_cases (req : Request) :
  (exists c s, header_X_Auth_Token req = Some (c :: s))
  \/ header_X_Auth_Token req = None \/ header_X_Auth_Token req = Some [].
Proof.
  destruct (header_X_Auth_Token req) as [[|c s]|]; eauto.
Qed.

(** The check accepts exactly the requests whose credential is the
    secret. *)
Lemma check_token_accepts_iff (secret : pystr) (req : Request) :
  check_token_from_request secret req = Return true
  <-> credential req = JStr secret.
Proof.
  unfold credential.
  destruct (header_cases req) as [(c & s & Hh)|Hh].
  - rewrite (check_token_nonempty_header secret req c s Hh), Hh.
    split.
    + intros E. inversion E as [E']. apply pystr_eqb_eq in E'. congruence.
    + intros E. inversion E as [E']. rewrite E', pystr_eqb_refl. reflexivity.
  - rewrite (check_token_body secret req Hh).
    assert (Hc : match header_X_Auth_Token req with
                 | Some (c :: s) => JStr (c :: s)
                 | _ => match get_json false true req with
                        | Return (JDict items) =>
                            dict_get items (lit "token") JNull
                        | _ => JNull
                        end
                 end
                 = match get_json false true req with
                   | Return (JDict items) => dict_get items (lit "token") JNull
                   | _ => JNull
                   end) by (destruct Hh as [-> | ->]; reflexivity).
    rewrite Hc. clear Hc.
    destruct (get_json false true req) as [v|e]; simpl.
    + destruct v as [|b|z|f|s|l|items]; unfold py_or; simpl;
        try (destruct b); try (destruct (z =? 0)); try (destruct f as [m ex|n|]);
        try (destruct (m =? 0)); try (destruct s); try (destruct l);
        simpl; try (split; discriminate).
      destruct items as [|kv items]; simpl; [split; discriminate|].
      set (t := dict_get (kv :: items) (lit "token") JNull).
      replace (let (k, v) := kv in
               if pystr_eqb k (lit "token") then v
               else dict_get items (lit "token") JNull) with t
        by (destruct kv; reflexivity).
      destruct t as [|b|z|f|s|l|d]; simpl; try (split; discriminate).
      split.
      * intros E. inversion E as [E']. apply pystr_eqb_eq in E'. congruence.
      * intros E. inversion E. now rewrite pystr_eqb_refl.
    + split; discriminate.
Qed.

(** When the body is a JSON object or does not count, every other request
    is rejected. *)
Lemma check_token_rejects (secret : pystr) (req : Request) :
  body_is_object_or_void req ->
  credential req <> JStr secret ->
  check_token_from_request secret req = Return false.
Proof.
  intros Hbody Hcred.
  assert (Hnot : check_token_from_request secret req <> Return true)
    by (intros E; apply Hcred; now apply check_token_accepts_iff).
  destruct (header_cases req) as [(c & s & Hh)|Hh].
  - rewrite (check_token_nonempty_header secret req c s Hh) in *.
    destruct (pystr_eqb (c :: s) secret); congruence.
  - rewrite (check_token_body secret req Hh) in *.
    unfold body_is_object_or_void in Hbody.
    destruct (get_json false true req) as [v|e]; simpl in *.
    + unfold py_or in *. destruct (truthy v) eqn:Ht.
      * destruct v; try discriminate; simpl in *.
        destruct (py_eq_str _ secret); congruence.
      * simpl in *. reflexivity.
    + reflexivity.
Qed.

(** A request without header whose body is the empty object is rejected;
    one whose header is the (non-empty) secret is accepted. *)
Lemma check_token_examples (c : N) (s : pystr) (req : Request) :
  check_token_from_request (c :: s) empty_object_request = Return false
  /\ (header_X_Auth_Token req = Some (c :: s) ->
      check_token_from_request (c :: s) req = Return true).
Proof.
  split.
  - reflexivity.
  - intros Hh. rewrite (check_token_nonempty_header _ req c s Hh).
    now rewrite pystr_eqb_refl.
Qed.

(** C2, at the input where the code leaves it. A request without header
    whose JSON body is the list [[1]] carries no credential; the check
    calls [.get] on the list and raises AttributeError, so each of the
    three authenticated endpoints answers with status 500 instead of the
    unauthorized answer with status 401. *)
Theorem check_token_list_body `{Builtins} (secret : pystr) (env : Env)
    (db : DB) :
  credential list_body_request = JNull
  /\ check_token_from_request secret list_body_request = Raise AttributeError
  /\ update_status secret env list_body_request db = Raise AttributeError
  /\ heartrate secret env list_body_request db = Raise AttributeError
  /\ phone_status secret env list_body_request db = Raise AttributeError
  /\ http_status (update_status secret env list_body_request db) = 500
  /\ status unauthorized = 401.
Proof. repeat split. Qed.

(** C9. A request whose X-Auth-Token header is present but empty, and
    whose JSON body is an object with the secret in its [token] field, is
    authorized: the empty header counts as no header. *)
Theorem empty_header_falls_back (secret : pystr) (req : Request)
    (items : list (pystr * json)) :
  header_X_Auth_Token req = Some [] ->
  is_json req = true ->
  body_json req = Some (JDict items) ->
  dict_get items (lit "token") JNull = JStr secret ->
  check_token_from_request secret req = Return true.
Proof.
  intros Hh Hj Hb Ht. apply check_token_accepts_iff.
  unfold credential, get_json. rewrite Hh, Hj, Hb. simpl. exact Ht.
Qed.

Lemma empty_header_falls_back_witness :
  header_X_Auth_Token (empty_header_request sample_secret) = Some []
  /\ check_token_from_request sample_secret
       (empty_header_request sample_secret) = Return true.
Proof.
  split; [reflexivity|].
  apply (empty_header_falls_back sample_secret
           (empty_header_request sample_secret)
           [field "token" (JStr sample_secret)]); reflexivity.
Defined.

(** ** The order of the credential check and the JSON validation *)

Lemma check_token_malformed (secret : pystr) (req : Request) :
  body_json req = None ->
  header_X_Auth_Token req <> Some secret ->
  check_token_from_request secret req = Return false.
Proof.
  intros Hb Hh. apply check_token_rejects.
  - unfold body_is_object_or_void, get_json. rewrite Hb.
    destruct (negb (false || is_json req)); reflexivity.
  - unfold credential, get_json. rewrite Hb.
    destruct (header_X_Auth_Token req) as [[|c s]|]; simpl;
      try (destruct (negb (is_json req)); discriminate).
    intros E. apply Hh. congruence.
Qed.

(** C10. On each of the three authenticated endpoints, a POST whose body
    is not JSON and whose X-Auth-Token header is not the secret is
    answered with 401 unauthorized, not with 400 invalid json, and the
    store is left as it was. *)
Theorem unauthorized_before_invalid_json `{Builtins} (secret : pystr)
    (env : Env) (req : Request) (db : DB) :
  body_json req = None ->
  header_X_Auth_Token req <> Some secret ->
  update_status secret env req db = Return (unauthorized, db)
  /\ heartrate secret env req db = Return (unauthorized, db)
  /\ phone_status secret env req db = Return (unauthorized, db)
  /\ status unauthorized = 401
  /\ status invalid_json = 400.
Proof.
  intros Hb Hh. pose proof (check_token_malformed secret req Hb Hh) as Hc.
  unfold update_status, heartrate, phone_status. rewrite Hc.
  repeat split.
Qed.

Lemma unauthorized_before_invalid_json_witness :
  @update_status ascii_runtime sample_secret (fair_weather (at_noon 0))
    malformed_request empty_db = Return (unauthorized, empty_db)
  /\ @heartrate ascii_runtime sample_secret (fair_weather (at_noon 0))
       malformed_request empty_db = Return (unauthorized, empty_db)
  /\ @phone_status ascii_runtime sample_secret (fair_weather (at_noon 0))
       malformed_request empty_db = Return (unauthorized, empty_db)
  /\ status unauthorized = 401
  /\ status invalid_json = 400.
Proof.
  apply (@unauthorized_before_invalid_json ascii_runtime sample_secret
           (fair_weather (at_noon 0)) malformed_request empty_db).
  - reflexivity.
  - vm_compute. discriminate.
Defined.

(** With the secret in the header, the same body is answered with 400
    invalid json. *)
Lemma invalid_json_after_authorized `{Builtins} (env : Env) (req : Request)
    (db : DB) (c : N) (s : pystr) :
  body_json req = None ->
  header_X_Auth_Token req = Some (c :: s) ->
  update_status (c :: s) env req db = Return (invalid_json, db)
  /\ heartrate (c :: s) env req db = Return (invalid_json, db)
  /\ phone_status (c :: s) env req db = Return (invalid_json, db).
Proof.
  intros Hb Hh. unfold update_status, heartrate, phone_status.
  rewrite (check_token_nonempty_header _ req c s Hh), pystr_eqb_refl.
  unfold get_json. rewrite Hb. repeat split.
Qed.

(** ** POST /api/heartrate *)

Lemma check_token_header_and_body (secret : pystr) (req : Request)
    (items : list (pystr * json)) :
  header_X_Auth_Token req = Some secret ->
  is_json req = true ->
  body_json req = Some (JDict items) ->
  dict_get items (lit "token") JNull = JStr secret ->
  check_token_from_request secret req = Return true.
Proof.
  intros Hh Hj Hb Ht. apply check_token_accepts_iff.
  unfold credential, get_json. rewrite Hh, Hj, Hb.
  destruct secret; [exact Ht | reflexivity].
Qed.

(** A rate on which [int] raises TypeError or ValueError is answered with
    400 invalid rate, and the store is left as it was. *)
Lemma heartrate_invalid_rate `{Builtins} (secret : pystr) (env : Env)
    (req : Request) (db : DB) (items : list (pystr * json)) (e : pyexc) :
  check_token_from_request secret req = Return true ->
  body_json req = Some (JDict items) ->
  py_int (dict_get items (lit "rate") JNull) = Raise e ->
  existsb (issubclass e) [TypeError; ValueError] = true ->
  heartrate secret env req db = Return (invalid_rate, db).
Proof.
  intros Hc Hb Hi He. unfold heartrate, get_json. rewrite Hc, Hb. simpl.
  rewrite Hi. unfold try_except_else. rewrite He. reflexivity.
Qed.


(** The rate "abc" is answered with 400; no row is created. *)
Lemma heartrate_abc (env : Env) (db : DB) :
  @heartrate ascii_runtime sample_secret env
    (rate_request sample_secret (JStr (lit "abc"))) db
  = Return (invalid_rate, db).
Proof.
  apply (@heartrate_invalid_rate ascii_runtime sample_secret env _ db
           [field "token" (JStr sample_secret);
            field "rate" (JStr (lit "abc"))] ValueError);
    reflexivity.
Qed.

(** C6, at the input where the code leaves it. The rate [1e999] is the
    float infinity, on which [int] raises OverflowError; the handler
    catches TypeError and ValueError only, so the request of an authorized
    client is answered with status 500 instead of the validation error
    with status 400. The store is not touched. *)
Theorem heartrate_infinite_rate `{Builtins} (secret : pystr) (env : Env)
    (db : DB) :
  check_token_from_request secret (infinite_rate_request secret) = Return true
  /\ py_int (JFloat (Infinity false)) = Raise OverflowError
  /\ heartrate secret env (infinite_rate_request secret) db
     = Raise OverflowError
  /\ http_status (heartrate secret env (infinite_rate_request secret) db)
     = 500
  /\ status invalid_rate = 400.
Proof.
  assert (Hc : check_token_from_request secret (infinite_rate_request secret)
               = Return true).
  { apply (check_token_header_and_body secret _
             [field "token" (JStr secret);
              field "rate" (JFloat (Infinity false))]); reflexivity. }
  assert (Hr : heartrate secret env (infinite_rate_request secret) db
               = Raise OverflowError).
  { unfold heartrate. rewrite Hc. reflexivity. }
  rewrite Hr. repeat split. exact Hc.
Qed.

(* ================================================================== *)
(** * Further properties of the client *)
(* ================================================================== *)

(** ** Blank titles *)

Lemma lstrip_shape (s : pystr) :
  lstrip s = [] \/ exists c r, lstrip s = c :: r /\ is_space c = false.
Proof.
  induction s as [|c s IH]; simpl; [now left|].
  destruct (is_space c) eqn:Hc; [exact IH|].
  right. now exists c, s.
Qed.

Lemma lstrip_nil (s : pystr) :
  lstrip s = [] <-> forallb is_space s = true.
Proof.
  induction s as [|c s IH]; simpl; [tauto|].
  destruct (is_space c); simpl; [exact IH|]. split; discriminate.
Qed.

Lemma strip_nil (s : pystr) : strip s = [] <-> forallb is_space s = true.
Proof.
  unfold strip, rstrip. rewrite <- lstrip_nil. split.
  - intros E. apply (f_equal (@rev N)) in E. rewrite rev_involutive in E.
    simpl in E. apply lstrip_nil in E. rewrite forallb_forall in E.
    destruct (lstrip_shape s) as [Hn|(c & r & Hs & Hc)]; [exact Hn|].
    rewrite Hs in E. specialize (E c). rewrite <- in_rev in E.
    rewrite E in Hc; [discriminate | now left].
  - intros ->. reflexivity.
Qed.

(** ** The order on strings *)

Lemma pystr_ltb_asym (a b : pystr) :
  pystr_ltb a b = true -> pystr_ltb b a = false.
Proof.
  revert b. induction a as [|x a IH]; intros [|y b]; simpl; try congruence.
  destruct (N.ltb_spec x y), (N.ltb_spec y x); try congruence; try lia.
  apply IH.
Qed.

Lemma pystr_le_trans (a b c : pystr) :
  pystr_ltb b a = false -> pystr_ltb c b = false -> pystr_ltb c a = false.
Proof.
  revert b c. induction a as [|x a IH]; intros [|y b] [|z c]; simpl;
    try congruence.
  destruct (N.ltb_spec y x), (N.ltb_spec x y), (N.ltb_spec z y),
    (N.ltb_spec y z), (N.ltb_spec z x), (N.ltb_spec x z);
    try congruence; try lia.
  apply IH.
Qed.

Lemma sort_insert_sorted {A : Type} (key : A -> pystr) (x : A) (l : list A) :
  sorted_by key l -> sorted_by key (sort_insert key x l).
Proof.
  unfold sorted_by. induction 1 as [|y l Hs IH Hy]; simpl.
  - repeat constructor.
  - destruct (pystr_ltb (key y) (key x)) eqn:Hlt.
    + constructor; [exact IH|].
      rewrite Forall_forall. intros z Hz.
      apply (Permutation_in _ (sort_insert_perm key x l)) in Hz.
      destruct Hz as [<-|Hz]; [now apply pystr_ltb_asym|].
      rewrite Forall_forall in Hy. now apply Hy.
    + constructor; [constructor; assumption|].
      constructor; [exact Hlt|].
      eapply Forall_impl; [|exact Hy]. simpl. intros z Hz.
      eapply pystr_le_trans; eauto.
Qed.

Lemma list_sort_sorted {A : Type} (key : A -> pystr) (l : list A) :
  sorted_by key (list_sort key l).
Proof.
  induction l as [|x l IH]; simpl; [constructor|].
  now apply sort_insert_sorted.
Qed.

(** X1. The list that [get_open_apps] returns is in the order of the
    lower-cased process names: no entry is followed, anywhere later in
    the list, by one whose key is smaller. *)
Theorem get_open_apps_sorted `{Builtins} (ws : list Window)
    (apps : list AppEntry) :
  get_open_apps ws = Return apps ->
  sorted_by (fun x => str_lower (process_name x)) apps.
Proof.
  unfold get_open_apps.
  destruct (EnumWindows ws []) as [d|e]; simpl; [|discriminate].
  intros E. inversion E. apply list_sort_sorted.
Qed.

Lemma get_open_apps_sorted_witness :
  sorted_by (fun x => ascii_lower (process_name x)) sample_apps.
Proof.
  apply (@get_open_apps_sorted ascii_runtime sample_windows).
  vm_compute. reflexivity.
Defined.

(** ** Where the entries come from *)

Lemma in_set_In (name : pystr) (s : list pystr) :
  in_set name s = true <-> In name s.
Proof.
  unfold in_set. rewrite existsb_exists. split.
  - intros (x & Hx & E). apply pystr_eqb_eq in E. now subst.
  - intros Hin. exists name. split; [exact Hin | apply pystr_eqb_refl].
Qed.

Lemma qualifies_inv (w : Window) :
  qualifies w = true ->
  IsWindowVisible w = true
  /\ forallb is_space (GetWindowText w) = false
  /\ 100 <= width w /\ 50 <= height w
  /\ exists name,
       resolve_proc_name w = Return name /\ ~ In name system_like.
Proof.
  unfold qualifies, width, height.
  destruct (GetWindowRect w) as [[[r0 r1] r2] r3].
  rewrite !andb_true_iff, negb_true_iff, orb_false_iff.
  intros (((Hv & Ht) & Hw & Hh) & Hn).
  split; [exact Hv|]. split.
  - destruct (forallb is_space (GetWindowText w)) eqn:Hb; [|reflexivity].
    apply strip_nil in Hb. rewrite Hb in Ht. discriminate.
  - apply Z.ltb_ge in Hw, Hh. split; [exact Hw|]. split; [exact Hh|].
    destruct (resolve_proc_name w) as [name|e]; [|discriminate].
    exists name. split; [reflexivity|].
    rewrite <- in_set_In. now destruct (in_set name system_like).
Qed.

(** X2. Every entry that [get_open_apps] returns stems from a window of
    the enumeration: a visible window of the process of the entry that
    carries the title of the entry, a title that is not blank, and that
    is at least 100 wide and 50 high; and no entry carries a process name
    of the denylist. *)
Theorem get_open_apps_entries_from_windows `{Builtins} (ws : list Window)
    (apps : list AppEntry) (e : AppEntry) :
  get_open_apps ws = Return apps ->
  In e apps ->
  (exists w,
      In w ws
      /\ owner w = pid e
      /\ GetWindowText w = window_title e
      /\ IsWindowVisible w = true
      /\ forallb is_space (GetWindowText w) = false
      /\ 100 <= width w /\ 50 <= height w)
  /\ ~ In (process_name e) system_like.
Proof.
  intros Hrun He.
  destruct (get_open_apps_inv ws apps Hrun) as (d & Hinv & Hperm).
  assert (Hin : In e (map snd d)) by (eapply Permutation_in; eauto).
  destruct (dict_inv_entry ws d e Hinv Hin)
    as (_ & (w0 & rest & Hq0 & Hres) & (before & after & Htitles & _)).
  split.
  - assert (Ht : In (window_title e)
                   (map GetWindowText (qualifying ws (pid e)))).
    { rewrite Htitles. apply in_or_app. right. now left. }
    apply in_map_iff in Ht. destruct Ht as (w & Hw & Hwq).
    apply filter_In in Hwq. destruct Hwq as [Hws Hq].
    apply andb_true_iff in Hq. destruct Hq as [Hq Ho].
    apply Z.eqb_eq in Ho.
    destruct (qualifies_inv w Hq) as (Hv & Hb & Hwd & Hh & _).
    exists w. repeat split; assumption.
  - assert (Hw0 : In w0 (qualifying ws (pid e)))
      by (rewrite Hq0; now left).
    apply filter_In in Hw0. destruct Hw0 as [_ Hq].
    apply andb_true_iff in Hq. destruct Hq as [Hq _].
    destruct (qualifies_inv w0 Hq) as (_ & _ & _ & _ & name & Hn & Hnot).
    rewrite Hres in Hn. inversion Hn. now subst.
Qed.

Lemma get_open_apps_entries_from_windows_witness :
  (exists w,
      In w sample_windows
      /\ owner w = 42
      /\ GetWindowText w = lit "ABCDE"
      /\ IsWindowVisible w = true
      /\ forallb is_space (GetWindowText w) = false
      /\ 100 <= width w /\ 50 <= height w)
  /\ ~ In (lit "zoom.exe") system_like.
Proof.
  apply (@get_open_apps_entries_from_windows ascii_runtime sample_windows
           sample_apps
           {| pid := 42; process_name := lit "zoom.exe";
              window_title := lit "ABCDE" |}).
  - vm_compute. reflexivity.
  - simpl. right. right. left. reflexivity.
Defined.

(** ** Windows that do not count *)

Lemma callback_unqualified (d : apps_dict) (w : Window) :
  lookup_provided_for w -> qualifies w = false ->
  enum_window_callback d w = Return d.
Proof.
  intros Hw Hq. destruct (callback_total d w Hw) as [d' Hrun].
  pose proof (callback_Return d d' w Hrun) as Hspec.
  rewrite Hq in Hspec. now subst.
Qed.

Lemma EnumWindows_filter (ws : list Window) (d : apps_dict) :
  Forall lookup_provided_for ws ->
  EnumWindows (filter qualifies ws) d = EnumWindows ws d.
Proof.
  intros Hws. revert d. induction Hws as [|w ws Hw _ IH]; intros d; simpl.
  - reflexivity.
  - destruct (qualifies w) eqn:Hq; simpl.
    + destruct (enum_window_callback d w); simpl; [apply IH | reflexivity].
    + rewrite (callback_unqualified d w Hw Hq). simpl. apply IH.
Qed.

(** X3. Windows that are hidden, blank, too small or of a denylisted
    process do not influence the result in any way: [get_open_apps]
    returns for a window list what it returns for the qualifying windows
    of the list alone. *)
Theorem get_open_apps_ignores_unqualified `{Builtins} (ws : list Window) :
  Forall lookup_provided_for ws ->
  get_open_apps ws = get_open_apps (filter qualifies ws).
Proof.
  intros Hws. unfold get_open_apps. now rewrite EnumWindows_filter.
Qed.

Lemma get_open_apps_ignores_unqualified_witness :
  @get_open_apps ascii_runtime sample_windows
  = @get_open_apps ascii_runtime (filter qualifies sample_windows).
Proof.
  apply (@get_open_apps_ignores_unqualified ascii_runtime sample_windows).
  unfold sample_windows.
  repeat (constructor; [unfold lookup_provided_for; simpl; auto|]).
  constructor.
Defined.

(** ** Lookups that fail in another way *)

Lemma EnumWindows_app (ws1 ws2 : list Window) (d : apps_dict) :
  EnumWindows (ws1 ++ ws2) d = (d' <- EnumWindows ws1 d ;; EnumWindows ws2 d').
Proof.
  revert d. induction ws1 as [|w ws1 IH]; intros d; simpl; [reflexivity|].
  destruct (enum_window_callback d w); simpl; [apply IH | reflexivity].
Qed.

Lemma callback_raises (d : apps_dict) (w : Window) (e : pyexc) :
  IsWindowVisible w = true ->
  forallb is_space (GetWindowText w) = false ->
  100 <= width w -> 50 <= height w ->
  process_lookup w = Raise e ->
  existsb (issubclass e) [NoSuchProcess; AccessDenied; ZombieProcess] = false ->
  enum_window_callback d w = Raise e.
Proof.
  unfold enum_window_callback, width, height. intros Hv Hb Hw Hh Hl He.
  rewrite Hv. simpl.
  destruct (strip (GetWindowText w)) as [|c0 s0] eqn:Hs.
  { apply strip_nil in Hs. congruence. }
  simpl. destruct (GetWindowRect w) as [[[r0 r1] r2] r3].
  destruct (Z.ltb_spec (r2 - r0) 100); [lia|].
  destruct (Z.ltb_spec (r3 - r1) 50); [lia|]. simpl.
  destruct (GetWindowThreadProcessId w) as [tid own].
  unfold resolve_proc_name, try_except. rewrite Hl, He. reflexivity.
Qed.

(** X4. A process lookup that fails with an exception other than
    NoSuchProcess, ZombieProcess and AccessDenied is not replaced by a
    sentinel: when it happens for a visible, titled, large enough window
    the whole enumeration raises that exception, and when it happens for
    the foreground window the probe raises it. *)
Theorem other_lookup_errors_propagate `{Builtins}
    (before after : list Window) (w : Window) (e : pyexc) :
  Forall lookup_provided_for before ->
  IsWindowVisible w = true ->
  forallb is_space (GetWindowText w) = false ->
  100 <= width w -> 50 <= height w ->
  hwnd w <> 0 ->
  process_lookup w = Raise e ->
  existsb (issubclass e) [NoSuchProcess; AccessDenied; ZombieProcess] = false ->
  get_open_apps (before ++ w :: after) = Raise e
  /\ get_active_window_info (Some w) = Raise e.
Proof.
  intros Hbefore Hv Hb Hw Hh Hz Hl He. split.
  - unfold get_open_apps. rewrite EnumWindows_app.
    destruct (EnumWindows_total before [] Hbefore) as [d ->]. simpl.
    now rewrite (callback_raises d w e Hv Hb Hw Hh Hl He).
  - unfold get_active_window_info.
    destruct (Z.eqb_spec (hwnd w) 0); [contradiction|].
    destruct (GetWindowThreadProcessId w) as [tid own].
    rewrite Hl. destruct e; simpl in He; try discriminate; reflexivity.
Qed.

Lemma other_lookup_errors_propagate_witness :
  @get_open_apps ascii_runtime (sample_windows ++ broken_window :: [])
  = Raise PsutilError
  /\ get_active_window_info (Some broken_window) = Raise PsutilError.
Proof.
  apply (@other_lookup_errors_propagate ascii_runtime sample_windows []
           broken_window PsutilError); try reflexivity.
  - unfold sample_windows.
    repeat (constructor; [unfold lookup_provided_for; simpl; auto|]).
    constructor.
  - vm_compute. discriminate.
  - vm_compute. discriminate.
  - vm_compute. discriminate.
Defined.

(* ================================================================== *)
(** * Further properties of the collector *)
(* ================================================================== *)

(** ** What a POST does to the store *)

Arguments py_get : simpl never.
Arguments py_or : simpl never.
Arguments py_int : simpl never.
Arguments insert : simpl never.

Ltac close_effect :=
  let E := fresh "E" in
  intros E; inversion E; subst; clear E;
  first [ left; split; [reflexivity | unfold invalid_rate; auto 6]
        | right; repeat split; eexists; split; reflexivity ].

Lemma update_status_effect `{Builtins} (secret : pystr) (env : Env)
    (req : Request) (db db' : DB) (resp : Response) :
  update_status secret env req db = Return (resp, db') ->
  (db' = db
   /\ (resp = unauthorized \/ resp = invalid_json \/ resp = db_error))
  \/ (storage_fault env = false /\ resp = ok_true
      /\ exists r, db' = with_activity db r
                   /\ activity_created_at r = utcnow env).
Proof.
  unfold update_status, storage.
  destruct (check_token_from_request secret req) as [[|]|e]; simpl;
    [|close_effect|discriminate].
  destruct (get_json true false req) as [data|e]; simpl; [|close_effect].
  destruct (py_get data (lit "active") JNull) as [a|e]; simpl;
    [|discriminate].
  destruct (py_get data (lit "apps") JNull) as [b|e]; simpl; [|discriminate].
  destruct (py_get (py_or a (JDict [])) (lit "process_name") JNull)
    as [pn|e]; simpl; [|discriminate].
  destruct (py_get (py_or a (JDict [])) (lit "window_title") JNull)
    as [wt|e]; simpl; [|discriminate].
  destruct (storage_fault env); simpl; close_effect.
Qed.

Lemma heartrate_effect `{Builtins} (secret : pystr) (env : Env)
    (req : Request) (db db' : DB) (resp : Response) :
  heartrate secret env req db = Return (resp, db') ->
  (db' = db
   /\ (resp = unauthorized \/ resp = invalid_json \/ resp = invalid_rate
       \/ resp = db_error))
  \/ (storage_fault env = false /\ resp = status_ok
      /\ exists r, db' = with_heart_rate db r
                   /\ heart_rate_created_at r = utcnow env).
Proof.
  unfold heartrate, storage.
  destruct (check_token_from_request secret req) as [[|]|e]; simpl;
    [|close_effect|discriminate].
  destruct (get_json true false req) as [data|e]; simpl; [|close_effect].
  destruct (py_get data (lit "rate") JNull) as [a|e]; simpl; [|discriminate].
  destruct (py_get data (lit "source") (JStr (lit "shortcut"))) as [b|e];
    simpl; [|discriminate].
  destruct (py_int a) as [n|e]; cbn [try_except_else].
  - destruct (storage_fault env); simpl; close_effect.
  - destruct (existsb (issubclass e) [TypeError; ValueError]);
      [close_effect | discriminate].
Qed.

Lemma phone_status_effect `{Builtins} (secret : pystr) (env : Env)
    (req : Request) (db db' : DB) (resp : Response) :
  phone_status secret env req db = Return (resp, db') ->
  (db' = db
   /\ (resp = unauthorized \/ resp = invalid_json \/ resp = db_error))
  \/ (storage_fault env = false /\ resp = status_ok
      /\ exists r, db' = with_phone_status db r
                   /\ phone_created_at r = utcnow env).
Proof.
  unfold phone_status, storage.
  destruct (check_token_from_request secret req) as [[|]|e]; simpl;
    [|close_effect|discriminate].
  destruct (get_json true false req) as [data|e]; simpl; [|close_effect].
  destruct (py_get data (lit "locked") JNull) as [a|e]; simpl;
    [|discriminate].
  destruct (py_get data (lit "battery") JNull) as [b|e]; simpl;
    [|discriminate].
  destruct (py_get data (lit "app") JNull) as [c|e]; simpl; [|discriminate].
  destruct (py_get data (lit "source") (JStr (lit "iphone"))) as [d|e];
    simpl; [|discriminate].
  destruct (py_int b) as [n|e]; simpl;
    destruct (storage_fault env); simpl; close_effect.
Qed.

(** X5. The store is append-only under the three POST endpoints: whatever
    the request, a POST leaves the store as it was or inserts one row in
    the table of its endpoint, existing rows and the other tables stay
    untouched, and only an answer with status 200 goes with an insert. *)
Theorem posts_append_only `{Builtins} (secret : pystr) (env : Env)
    (req : Request) (db : DB) :
  (forall resp db',
      update_status secret env req db = Return (resp, db') ->
      (db' = db \/ exists r, db' = with_activity db r)
      /\ (status resp <> 200 -> db' = db))
  /\ (forall resp db',
        heartrate secret env req db = Return (resp, db') ->
        (db' = db \/ exists r, db' = with_heart_rate db r)
        /\ (status resp <> 200 -> db' = db))
  /\ (forall resp db',
        phone_status secret env req db = Return (resp, db') ->
        (db' = db \/ exists r, db' = with_phone_status db r)
        /\ (status resp <> 200 -> db' = db)).
Proof.
  split; [|split]; intros resp db' Hrun.
  - destruct (update_status_effect secret env req db db' resp Hrun)
      as [[-> _]|(_ & -> & r & -> & _)].
    + split; [now left | reflexivity].
    + split; [right; now exists r | intros Hs; now destruct Hs].
  - destruct (heartrate_effect secret env req db db' resp Hrun)
      as [[-> _]|(_ & -> & r & -> & _)].
    + split; [now left | reflexivity].
    + split; [right; now exists r | intros Hs; now destruct Hs].
  - destruct (phone_status_effect secret env req db db' resp Hrun)
      as [[-> _]|(_ & -> & r & -> & _)].
    + split; [now left | reflexivity].
    + split; [right; now exists r | intros Hs; now destruct Hs].
Qed.

(** ** The read endpoints *)

Lemma latest_heartrate_run (env : Env) (db : DB) :
  storage_fault env = false ->
  latest_heartrate env db =
  Return (match hd_error (select_latest 1 (heart_rate db)) with
          | None => no_data
          | Some (_, r) => heart_rate_view r
          end, db).
Proof.
  intros Hf. unfold latest_heartrate, storage. rewrite Hf. simpl.
  destruct (hd_error (select_latest 1 (heart_rate db))) as [[i r]|];
    reflexivity.
Qed.

Lemma phone_latest_run (env : Env) (db : DB) :
  storage_fault env = false ->
  phone_latest env db =
  Return (match hd_error (select_latest 1 (phone_status_table db)) with
          | None => no_data
          | Some (_, r) => phone_view r
          end, db).
Proof.
  intros Hf. unfold phone_latest, storage. rewrite Hf. simpl.
  destruct (hd_error (select_latest 1 (phone_status_table db))) as [[i r]|];
    reflexivity.
Qed.

(** X6. The four GET endpoints never raise and never change the store,
    whatever the store holds and whether or not it can be reached. *)
Theorem gets_read_only `{Builtins} (env : Env) (db : DB) :
  (exists resp, get_current env db = Return (resp, db))
  /\ (exists resp, latest_heartrate env db = Return (resp, db))
  /\ (exists resp, heartrate_history env db = Return (resp, db))
  /\ (exists resp, phone_latest env db = Return (resp, db)).
Proof.
  destruct (storage_fault env) eqn:Hf.
  - unfold get_current, latest_heartrate, heartrate_history, phone_latest,
      storage. rewrite Hf. simpl. repeat split; eexists; reflexivity.
  - rewrite (get_current_run env db Hf), (latest_heartrate_run env db Hf),
      (heartrate_history_run env db Hf), (phone_latest_run env db Hf).
    repeat split; eexists; reflexivity.
Qed.

(** X7. While the store cannot be reached, every GET endpoint answers
    with status 500 and the body "db error", and no POST is answered with
    status 200 or changes the store. *)
Theorem storage_fault_is_db_error `{Builtins} (secret : pystr) (env : Env)
    (req : Request) (db : DB) :
  storage_fault env = true ->
  get_current env db = Return (db_error, db)
  /\ latest_heartrate env db = Return (db_error, db)
  /\ heartrate_history env db = Return (db_error, db)
  /\ phone_latest env db = Return (db_error, db)
  /\ status db_error = 500
  /\ (forall resp db',
        update_status secret env req db = Return (resp, db')
        \/ heartrate secret env req db = Return (resp, db')
        \/ phone_status secret env req db = Return (resp, db') ->
        db' = db /\ status resp <> 200).
Proof.
  intros Hf.
  unfold get_current, latest_heartrate, heartrate_history, phone_latest,
    storage. rewrite Hf. simpl.
  do 5 (split; [reflexivity|]).
  intros resp db' [Hrun|[Hrun|Hrun]].
  - destruct (update_status_effect _ _ _ _ _ _ Hrun)
      as [[-> [->|[->| ->]]]|(Hok & _)]; try congruence;
      split; try reflexivity; discriminate.
  - destruct (heartrate_effect _ _ _ _ _ _ Hrun)
      as [[-> [->|[->|[->| ->]]]]|(Hok & _)]; try congruence;
      split; try reflexivity; discriminate.
  - destruct (phone_status_effect _ _ _ _ _ _ Hrun)
      as [[-> [->|[->| ->]]]|(Hok & _)]; try congruence;
      split; try reflexivity; discriminate.
Qed.

Lemma storage_fault_is_db_error_witness :
  @get_current ascii_runtime {| utcnow := at_noon 0; storage_fault := true |}
    skewed_db = Return (db_error, skewed_db)
  /\ status db_error = 500.
Proof.
  destruct (@storage_fault_is_db_error ascii_runtime sample_secret
              {| utcnow := at_noon 0; storage_fault := true |}
              malformed_request skewed_db eq_refl)
    as (Hc & _ & _ & _ & Hs & _).
  split; assumption.
Defined.

(** ** The order of the ids *)

Lemma ascending_NoDup {R : Type} (t : Table R) :
  ascending t -> NoDup (map fst (rows t)).
Proof.
  intros [Hs _]. induction Hs as [|x l Hs IH Hx]; simpl; constructor.
  - intros Hin. apply in_map_iff in Hin. destruct Hin as (y & E & Hy).
    rewrite Forall_forall in Hx. specialize (Hx y Hy). lia.
  - exact IH.
Qed.

(** X8. The POST endpoints keep the tables in order: when the rows of
    every table stand in the order of their ids, below the counter of the
    table, they still do after any POST, so ids are never used twice. *)
Theorem posts_keep_ids_ascending `{Builtins} (secret : pystr) (env : Env)
    (req : Request) (db db' : DB) (resp : Response) :
  db_ascending db ->
  update_status secret env req db = Return (resp, db')
  \/ heartrate secret env req db = Return (resp, db')
  \/ phone_status secret env req db = Return (resp, db') ->
  db_ascending db'
  /\ NoDup (map fst (rows (activity db')))
  /\ NoDup (map fst (rows (heart_rate db')))
  /\ NoDup (map fst (rows (phone_status_table db'))).
Proof.
  intros Hdb Hrun.
  assert (Hdb' : db_ascending db').
  { destruct Hdb as (Ha & Hh & Hp). destruct Hrun as [Hrun|[Hrun|Hrun]].
    - destruct (update_status_effect _ _ _ _ _ _ Hrun)
        as [[-> _]|(_ & _ & r & -> & _)]; [exact (conj Ha (conj Hh Hp))|].
      split; [|split]; simpl; auto using insert_ascending.
    - destruct (heartrate_effect _ _ _ _ _ _ Hrun)
        as [[-> _]|(_ & _ & r & -> & _)]; [exact (conj Ha (conj Hh Hp))|].
      split; [|split]; simpl; auto using insert_ascending.
    - destruct (phone_status_effect _ _ _ _ _ _ Hrun)
        as [[-> _]|(_ & _ & r & -> & _)]; [exact (conj Ha (conj Hh Hp))|].
      split; [|split]; simpl; auto using insert_ascending. }
  split; [exact Hdb'|].
  destruct Hdb' as (Ha & Hh & Hp).
  repeat split; now apply ascending_NoDup.
Qed.

Lemma posts_keep_ids_ascending_witness :
  db_ascending grown_heart_db
  /\ NoDup (map fst (rows (activity grown_heart_db)))
  /\ NoDup (map fst (rows (heart_rate grown_heart_db)))
  /\ NoDup (map fst (rows (phone_status_table grown_heart_db))).
Proof.
  apply (@posts_keep_ids_ascending ascii_runtime sample_secret
           (fair_weather (at_noon 9))
           (rate_request sample_secret (JInt 80)) (heart_db 3)
           grown_heart_db status_ok).
  - split; [|split].
    + apply empty_table_ascending.
    + apply (insert_all_ascending (sample_rates 3)), empty_table_ascending.
    + apply empty_table_ascending.
  - right. left. reflexivity.
Defined.

(** ** Writing, then reading *)













(** X13. With the store reachable, GET /api/latest_heartrate answers
    {status: no data} with status 200 on an empty table, and else shows a
    row whose id is the greatest of the table; after a sequence of
    inserts this is the row inserted last. *)
Theorem latest_heartrate_latest (env : Env) (db : DB) :
  storage_fault env = false ->
  (rows (heart_rate db) = [] ->
     latest_heartrate env db = Return (no_data, db) /\ status no_data = 200)
  /\ (rows (heart_rate db) <> [] ->
        exists i r,
          In (i, r) (rows (heart_rate db))
          /\ (forall y, In y (rows (heart_rate db)) -> fst y <= i)
          /\ latest_heartrate env db = Return (heart_rate_view r, db))
  /\ (forall rs r,
        heart_rate db = insert_all empty_table (rs ++ [r]) ->
        latest_heartrate env db = Return (heart_rate_view r, db)).
Proof.
  intros Hf. rewrite (latest_heartrate_run env db Hf).
  pose proof (select_latest_one (heart_rate db)) as Hmax.
  split; [|split].
  - intros Hnil. split; [|reflexivity].
    destruct (hd_error (select_latest 1 (heart_rate db))) as [[i r]|];
      [|reflexivity].
    destruct Hmax as [Hin _]. rewrite Hnil in Hin. contradiction.
  - intros Hne.
    destruct (hd_error (select_latest 1 (heart_rate db))) as [[i r]|];
      [|contradiction].
    destruct Hmax as [Hin Hge]. exists i, r. auto.
  - intros rs r E. rewrite E.
    destruct (latest_inserted rs r) as [i ->]. reflexivity.
Qed.

Lemma latest_heartrate_latest_witness :
  latest_heartrate (fair_weather (at_noon 50)) (heart_db 3)
  = Return (heart_rate_view (heart_rate_row 2), heart_db 3).
Proof.
  destruct (latest_heartrate_latest (fair_weather (at_noon 50)) (heart_db 3)
              eq_refl) as (_ & _ & Hlast).
  apply (Hlast [heart_rate_row 0; heart_rate_row 1] (heart_rate_row 2)).
  reflexivity.
Defined.

(** X14. With the store reachable, GET /api/phone_latest answers
    {status: no data} with status 200 on an empty table, and else shows a
    row whose id is the greatest of the table, a battery that was stored
    as null being shown as null; after a sequence of inserts this is the
    row inserted last. *)
Theorem phone_latest_latest (env : Env) (db : DB) :
  storage_fault env = false ->
  (rows (phone_status_table db) = [] ->
     phone_latest env db = Return (no_data, db) /\ status no_data = 200)
  /\ (rows (phone_status_table db) <> [] ->
        exists i r,
          In (i, r) (rows (phone_status_table db))
          /\ (forall y, In y (rows (phone_status_table db)) -> fst y <= i)
          /\ phone_latest env db = Return (phone_view r, db))
  /\ (forall rs r,
        phone_status_table db = insert_all empty_table (rs ++ [r]) ->
        phone_latest env db = Return (phone_view r, db))
  /\ (forall r, battery r = None ->
        dict_get (match body (phone_view r) with
                  | JDict items => items
                  | _ => []
                  end) (lit "battery") (JStr []) = JNull).
Proof.
  intros Hf. rewrite (phone_latest_run env db Hf).
  pose proof (select_latest_one (phone_status_table db)) as Hmax.
  split; [|split; [|split]].
  - intros Hnil. split; [|reflexivity].
    destruct (hd_error (select_latest 1 (phone_status_table db)))
      as [[i r]|]; [|reflexivity].
    destruct Hmax as [Hin _]. rewrite Hnil in Hin. contradiction.
  - intros Hne.
    destruct (hd_error (select_latest 1 (phone_status_table db)))
      as [[i r]|]; [|contradiction].
    destruct Hmax as [Hin Hge]. exists i, r. auto.
  - intros rs r E. rewrite E.
    destruct (latest_inserted rs r) as [i ->]. reflexivity.
  - intros r Hr. unfold phone_view. simpl. rewrite Hr. reflexivity.
Qed.

Lemma phone_latest_latest_witness :
  phone_latest (fair_weather (at_noon 50))
    {| activity := empty_table; heart_rate := empty_table;
       phone_status_table :=
         insert_all empty_table [phone_row 1 (Some 80); phone_row 2 None] |}
  = Return (phone_view (phone_row 2 None),
            {| activity := empty_table; heart_rate := empty_table;
               phone_status_table :=
                 insert_all empty_table
                   [phone_row 1 (Some 80); phone_row 2 None] |}).
Proof.
  destruct (phone_latest_latest (fair_weather (at_noon 50))
              {| activity := empty_table; heart_rate := empty_table;
                 phone_status_table :=
                   insert_all empty_table
                     [phone_row 1 (Some 80); phone_row 2 None] |}
              eq_refl) as (_ & _ & Hlast & _).
  apply (Hlast [phone_row 1 (Some 80)] (phone_row 2 None)).
  reflexivity.
Defined.

(** ** More on the credential check *)

(** X15. A header that is not empty decides alone: the request is
    accepted when the header is the secret and rejected when it is not,
    whatever the body is; a right token in the body does not make up for
    a wrong header, and the body is not even parsed. *)
Theorem header_decides_alone (secret : pystr) (req : Request)
    (c : N) (s : pystr) :
  header_X_Auth_Token req = Some (c :: s) ->
  (c :: s = secret -> check_token_from_request secret req = Return true)
  /\ (c :: s <> secret -> check_token_from_request secret req = Return false).
Proof.
  intros Hh. rewrite (check_token_nonempty_header secret req c s Hh).
  split.
  - intros ->. now rewrite pystr_eqb_refl.
  - intros Hne. apply pystr_eqb_neq in Hne. now rewrite Hne.
Qed.

Lemma header_decides_alone_witness :
  check_token_from_request sample_secret
    {| header_X_Auth_Token := Some (lit "guess");
       is_json := true;
       body_json := Some (JDict [field "token" (JStr sample_secret)]) |}
  = Return false.
Proof.
  apply (header_decides_alone sample_secret _ 103%N (lit "uess")).
  - reflexivity.
  - vm_compute. discriminate.
Defined.

(** X16. Without a usable header, the token of the body counts only when
    the content type of the request announces JSON: a request with no
    header, or an empty one, and another content type is rejected even
    when its body is a JSON object that carries the secret. *)
Theorem body_token_needs_json_content_type (secret : pystr) (req : Request) :
  header_X_Auth_Token req = None \/ header_X_Auth_Token req = Some [] ->
  is_json req = false ->
  check_token_from_request secret req = Return false.
Proof.
  intros Hh Hj. rewrite (check_token_body secret req Hh).
  unfold get_json. rewrite Hj. reflexivity.
Qed.

Lemma body_token_needs_json_content_type_witness :
  check_token_from_request sample_secret
    {| header_X_Auth_Token := None;
       is_json := false;
       body_json := Some (JDict [field "token" (JStr sample_secret)]) |}
  = Return false.
Proof.
  apply (body_token_needs_json_content_type sample_secret); auto.
Defined.

(** X17. An authorized POST whose body is JSON but not an object (a list,
    a text, a number, true, false or null) is not answered with 400: on
    each of the three POST endpoints [data.get] raises AttributeError,
    which leaves the handler, and the store is not touched. *)
Theorem non_object_body_raises `{Builtins} (secret : pystr) (env : Env)
    (req : Request) (db : DB) (v : json) :
  check_token_from_request secret req = Return true ->
  body_json req = Some v ->
  (forall items, v <> JDict items) ->
  update_status secret env req db = Raise AttributeError
  /\ heartrate secret env req db = Raise AttributeError
  /\ phone_status secret env req db = Raise AttributeError
  /\ http_status (update_status secret env req db) = 500.
Proof.
  intros Hc Hb Hv.
  assert (Hget : forall k d, py_get v k d = Raise AttributeError).
  { intros k d. destruct v; try reflexivity. now destruct (Hv items). }
  unfold update_status, heartrate, phone_status, get_json.
  rewrite Hc, Hb. simpl. rewrite !Hget. repeat split.
Qed.

Lemma non_object_body_raises_witness :
  @update_status ascii_runtime sample_secret (fair_weather (at_noon 0))
    (signed_request sample_secret JNull) empty_db = Raise AttributeError
  /\ @heartrate ascii_runtime sample_secret (fair_weather (at_noon 0))
       (signed_request sample_secret JNull) empty_db = Raise AttributeError
  /\ @phone_status ascii_runtime sample_secret (fair_weather (at_noon 0))
       (signed_request sample_secret JNull) empty_db = Raise AttributeError
  /\ http_status
       (@update_status ascii_runtime sample_secret (fair_weather (at_noon 0))
          (signed_request sample_secret JNull) empty_db) = 500.
Proof.
  apply (@non_object_body_raises ascii_runtime sample_secret
           (fair_weather (at_noon 0)) (signed_request sample_secret JNull)
           empty_db JNull); try reflexivity.
  intros items. discriminate.
Defined.

(* ================================================================== *)
(** * The reporter *)
(* ================================================================== *)


Lemma probe_returns (fg : option Window) :
  (forall w, fg = Some w -> lookup_provided_for w) ->
  exists active, get_active_window_info fg = Return active.
Proof.
  intros Hfg. destruct fg as [w|]; simpl; [|eauto].
  destruct (hwnd w =? 0); [eauto|].
  destruct (GetWindowThreadProcessId w) as [tid own].
  rewrite (probe_name_total w (Hfg w eq_refl)). simpl. eauto.
Qed.

Lemma enumerator_returns `{Builtins} (ws : list Window) :
  Forall lookup_provided_for ws -> exists apps, get_open_apps ws = Return apps.
Proof.
  intros Hws. unfold get_open_apps.
  destruct (EnumWindows_total ws [] Hws) as [d ->]. simpl. eauto.
Qed.

Lemma report_once_returns `{Builtins} (secret : pystr) (c : Cycle) :
  capture_provided_for c ->
  exists sent line,
    report_once secret c = Return (sent, line)
    /\ header_X_Auth_Token sent = Some secret
    /\ is_json sent = true.
Proof.
  intros [Hfg Hws]. unfold report_once.
  destruct (probe_returns _ Hfg) as [active ->].
  destruct (enumerator_returns _ Hws) as [apps ->]. simpl.
  destruct (cycle_post c) as [resp|e]; simpl; eauto.
Qed.



(** X19. A capture error ends the reporter: when in some pass a lookup
    fails with an exception the client does not provide for, on a window
    that counts, [main_loop] posts nothing in that pass and none after
    it, and the exception leaves the loop. *)
Theorem main_loop_stops_on_capture_error `{Builtins} (secret : pystr)
    (before after : list Cycle) (c : Cycle)
    (ws1 ws2 : list Window) (w : Window) (e : pyexc) :
  Forall capture_provided_for before ->
  (forall w', cycle_foreground c = Some w' -> lookup_provided_for w') ->
  cycle_windows c = ws1 ++ w :: ws2 ->
  Forall lookup_provided_for ws1 ->
  IsWindowVisible w = true ->
  forallb is_space (GetWindowText w) = false ->
  100 <= width w -> 50 <= height w ->
  process_lookup w = Raise e ->
  existsb (issubclass e) [NoSuchProcess; AccessDenied; ZombieProcess] = false ->
  exists log,
    main_loop secret (before ++ c :: after) = (log, Some e)
    /\ length log = length before.
Proof.
  intros Hbefore Hfg Hws Hws1 Hv Hb Hw Hh Hl He.
  assert (Hc : report_once secret c = Raise e).
  { unfold report_once. destruct (probe_returns _ Hfg) as [active ->].
    simpl. unfold get_open_apps. rewrite Hws, EnumWindows_app.
    destruct (EnumWindows_total ws1 [] Hws1) as [d ->]. simpl.
    now rewrite (callback_raises d w e Hv Hb Hw Hh Hl He). }
  induction Hbefore as [|c0 before Hc0 _ IH]; simpl.
  - rewrite Hc. exists []. split; reflexivity.
  - destruct (report_once_returns secret c0 Hc0) as (sent & line & -> & _).
    destruct IH as (log & -> & Hlen).
    exists ((sent, line) :: log). split; simpl; auto.
Qed.

Lemma main_loop_stops_on_capture_error_witness :
  exists log,
    @main_loop ascii_runtime sample_secret
      ([idle_cycle]
       ++ {| cycle_now := at_noon 4; cycle_foreground := None;
             cycle_windows := [] ++ broken_window :: sample_windows;
             cycle_post := Return (200, lit "{}") |}
       :: [idle_cycle])
    = (log, Some PsutilError)
    /\ length log = 1%nat.
Proof.
  apply (@main_loop_stops_on_capture_error ascii_runtime sample_secret
           [idle_cycle] [idle_cycle] _ [] sample_windows broken_window
           PsutilError); try reflexivity.
  - constructor; [|constructor].
    split; simpl; [intros w E; discriminate | constructor].
  - simpl. discriminate.
  - constructor.
  - vm_compute. discriminate.
  - vm_compute. discriminate.
Defined.

(** ** From the reporter to the page *)





(** X21. An empty secret locks the reporter out: when the secret of both
    sides is the empty text, the header that the reporter sends counts as
    missing, its payload carries no token, and POST /api/status answers
    every report with 401 and stores nothing. *)
Theorem empty_secret_rejects_reporter `{Builtins} (env : Env) (db : DB)
    (now_str : pystr) (active : option ActiveAppInfo) (apps : list AppEntry) :
  check_token_from_request []
    (requests_post [] (payload now_str active apps)) = Return false
  /\ update_status [] env (requests_post [] (payload now_str active apps)) db
     = Return (unauthorized, db)
  /\ status unauthorized = 401.
Proof.
  assert (Hc : check_token_from_request []
                 (requests_post [] (payload now_str active apps))
               = Return false) by reflexivity.
  unfold update_status. rewrite Hc. repeat split.
Qed.
